(** * Semantic JSON diff: the comparison engine of [src/lib/jsonDiff.ts]

    A shallow embedding of [deepEqual], [getValueType], [compareJSON] and
    [getDiffStats], together with the JavaScript operators they are written
    with ([typeof], [===], [== null], [in], [obj[key]], [Object.keys],
    [new Set], [||], [&&]), and the properties of the diff tree that the
    specification states about them. *)

From Stdlib Require Import List String Ascii Bool Arith PeanoNat ZArith Lia.
From Stdlib Require Import Floats DecimalString DecimalNat Permutation.
Import ListNotations.
Open Scope string_scope.
Open Scope list_scope.

(** ** JavaScript values

    [compareJSON] is typed [any]: its arguments are the results of
    [JSON.parse], but the values it reads with [obj[key]] can also be
    [undefined] (a missing property) or come from the prototype of every
    plain object, [Object.prototype]: one of its built-in functions, or, for
    the key [__proto__], [Object.prototype] itself.  The list of an object
    holds its own enumerable properties in [Object.keys] order. *)

Unset Elimination Schemes.
Inductive JsValue : Type :=
| JUndefined
| JNull
| JBool (b : bool)
| JNum (x : float)
| JStr (s : string)
| JArr (items : list JsValue)
| JObj (props : list (string * JsValue))
| HFun (name : string)
| HObjProto.
Set Elimination Schemes.

Section JsValue_induction.
Variable P : JsValue -> Prop.
Hypothesis Hundef : P JUndefined.
Hypothesis Hnull : P JNull.
Hypothesis Hbool : forall b, P (JBool b).
Hypothesis Hnum : forall x, P (JNum x).
Hypothesis Hstr : forall s, P (JStr s).
Hypothesis Harr : forall items, Forall P items -> P (JArr items).
Hypothesis Hobj :
  forall props, Forall (fun kv => P (snd kv)) props -> P (JObj props).
Hypothesis Hfun : forall name, P (HFun name).
Hypothesis Hproto : P HObjProto.

Fixpoint JsValue_ind (v : JsValue) : P v :=
  match v with
  | JUndefined => Hundef
  | JNull => Hnull
  | JBool b => Hbool b
  | JNum x => Hnum x
  | JStr s => Hstr s
  | JArr items =>
      Harr items
        ((fix go (l : list JsValue) : Forall P l :=
            match l with
            | [] => Forall_nil _
            | x :: l' => Forall_cons x (JsValue_ind x) (go l')
            end) items)
  | JObj props =>
      Hobj props
        ((fix go (l : list (string * JsValue))
            : Forall (fun kv => P (snd kv)) l :=
            match l with
            | [] => Forall_nil _
            | kv :: l' => Forall_cons kv (JsValue_ind (snd kv)) (go l')
            end) props)
  | HFun name => Hfun name
  | HObjProto => Hproto
  end.
End JsValue_induction.

(** The specification's [Value]: null, a boolean, a number (any double),
    a string, an array of values, or an object of values whose keys are
    pairwise different; [undefined] and the host objects are not values. *)
Fixpoint distinct (keys : list string) : bool :=
  match keys with
  | [] => true
  | k :: rest => negb (existsb (String.eqb k) rest) && distinct rest
  end.

Fixpoint isValue (v : JsValue) : bool :=
  match v with
  | JNull | JBool _ | JNum _ | JStr _ => true
  | JArr items => forallb isValue items
  | JObj props =>
      distinct (map fst props) && forallb (fun kv => isValue (snd kv)) props
  | JUndefined | HFun _ | HObjProto => false
  end.

(** No number in [v] is NaN.  [JSON.parse] never returns NaN, the JSON
    grammar having no literal for it, but it is a double. *)
Fixpoint nanFree (v : JsValue) : bool :=
  match v with
  | JNum x => negb (is_nan x)
  | JArr items => forallb nanFree items
  | JObj props => forallb (fun kv => nanFree (snd kv)) props
  | _ => true
  end.

(** ** The operators of the language *)

(** [typeof v] *)
Definition typeof (v : JsValue) : string :=
  match v with
  | JUndefined => "undefined"
  | JNull => "object"
  | JBool _ => "boolean"
  | JNum _ => "number"
  | JStr _ => "string"
  | JArr _ => "object"
  | JObj _ => "object"
  | HFun _ => "function"
  | HObjProto => "object"
  end.

(** [v === null] *)
Definition isNull (v : JsValue) : bool :=
  match v with JNull => true | _ => false end.

(** [v == null]: true of [null] and of [undefined]. *)
Definition looseEqNull (v : JsValue) : bool :=
  match v with JUndefined | JNull => true | _ => false end.

(** [Array.isArray(v)] *)
Definition isArray (v : JsValue) : bool :=
  match v with JArr _ => true | _ => false end.

(** [v.length] of an array. *)
Definition arrayLength (v : JsValue) : nat :=
  match v with JArr items => List.length items | _ => 0 end.

(** [v[i]] with a numeric index; [undefined] out of range. *)
Definition getIndex (v : JsValue) (i : nat) : JsValue :=
  match v with JArr items => nth i items JUndefined | _ => JUndefined end.

(** Truthiness, as [||], [&&], [!] and [?:] test it. *)
Definition truthy (v : JsValue) : bool :=
  match v with
  | JUndefined | JNull => false
  | JBool b => b
  | JNum x => negb (PrimFloat.eqb x 0%float) && negb (is_nan x)
  | JStr s => negb (String.eqb s "")
  | JArr _ | JObj _ | HFun _ | HObjProto => true
  end.

(** [a === b].  Numbers compare as IEEE-754 doubles ([NaN] differs from
    itself, [+0] equals [-0]).  Two arrays or two objects compare by
    reference; the two operands of a comparison are different objects (the
    two documents are parsed separately), so the test fails on them. *)
Definition strictEq (a b : JsValue) : bool :=
  match a, b with
  | JUndefined, JUndefined => true
  | JNull, JNull => true
  | JBool x, JBool y => Bool.eqb x y
  | JNum x, JNum y => PrimFloat.eqb x y
  | JStr x, JStr y => String.eqb x y
  | HFun x, HFun y => String.eqb x y
  | HObjProto, HObjProto => true
  | _, _ => false
  end.

(** The property names of [Object.prototype] (ECMA-262, 20.1.3 and B.2.2). *)
Definition objectPrototypeKeys : list string :=
  [ "constructor"; "hasOwnProperty"; "isPrototypeOf"; "propertyIsEnumerable";
    "toLocaleString"; "toString"; "valueOf"; "__defineGetter__";
    "__defineSetter__"; "__lookupGetter__"; "__lookupSetter__"; "__proto__" ].

(** [keys.includes(key)] *)
Definition includes (keys : list string) (key : string) : bool :=
  existsb (String.eqb key) keys.

(** The own property [key] of a property list. *)
Fixpoint ownProp (props : list (string * JsValue)) (key : string)
  : option JsValue :=
  match props with
  | [] => None
  | (k, v) :: rest => if String.eqb k key then Some v else ownProp rest key
  end.

(** [`${i}`], the decimal numeral of an array index. *)
Definition indexToString (i : nat) : string :=
  NilEmpty.string_of_uint (Nat.to_uint i).

(** [Object.keys(v)]: the own enumerable string keys.  The properties of
    [Object.prototype] are not enumerable. *)
Definition ownKeys (v : JsValue) : list string :=
  match v with
  | JObj props => map fst props
  | JArr items => map indexToString (seq 0 (List.length items))
  | _ => []
  end.

(** [key in v] for an object [v]: own properties and those inherited from
    [Object.prototype].  The operator is only applied to non-array objects
    (see [compareJSON_fuel]). *)
Definition hasIn (key : string) (v : JsValue) : bool :=
  match v with
  | JObj props =>
      match ownProp props key with
      | Some _ => true
      | None => includes objectPrototypeKeys key
      end
  | HObjProto => includes objectPrototypeKeys key
  | _ => false
  end.

(** What [Object.prototype] holds at [key], read through an object that
    inherits from it ([self] is false) or on [Object.prototype] itself:
    [__proto__] is an accessor that returns the prototype of the receiver. *)
Definition protoProp (self : bool) (key : string) : JsValue :=
  if String.eqb key "__proto__" then (if self then JNull else HObjProto)
  else if includes objectPrototypeKeys key then HFun key
  else JUndefined.

(** [v[key]] for an object [v]. *)
Definition getProp (v : JsValue) (key : string) : JsValue :=
  match v with
  | JObj props =>
      match ownProp props key with
      | Some x => x
      | None => protoProp false key
      end
  | HObjProto => protoProp true key
  | _ => JUndefined
  end.

(** [new Set(keys)]: insertion order, first occurrence kept. *)
Definition setAdd (s : list string) (key : string) : list string :=
  if includes s key then s else s ++ [key].

Definition newSet (keys : list string) : list string :=
  fold_left setAdd keys [].

(** ** Diff nodes *)

Inductive DiffType : Type := Added | Removed | Modified | Unchanged.

(** The optional fields [oldValue?], [newValue?] and [children?] are absent
    ([None]) when the object literal does not mention them. *)
Unset Elimination Schemes.
Inductive DiffNode : Type :=
  mkDiffNode {
    path : string;
    type : DiffType;
    oldValue : option JsValue;
    newValue : option JsValue;
    children : option (list DiffNode)
  }.
Set Elimination Schemes.

Section DiffNode_induction.
Variable P : DiffNode -> Prop.
Hypothesis Hleaf : forall p t o n, P (mkDiffNode p t o n None).
Hypothesis Hnode :
  forall p t o n cs, Forall P cs -> P (mkDiffNode p t o n (Some cs)).

Fixpoint DiffNode_ind (d : DiffNode) : P d :=
  match d with
  | mkDiffNode p t o n None => Hleaf p t o n
  | mkDiffNode p t o n (Some cs) =>
      Hnode p t o n cs
        ((fix go (l : list DiffNode) : Forall P l :=
            match l with
            | [] => Forall_nil _
            | c :: l' => Forall_cons c (DiffNode_ind c) (go l')
            end) cs)
  end.
End DiffNode_induction.

(** ** [deepEqual] *)

(** The object case walks the keys of [a]; [a[key]] is the value stored
    with [key], the keys of an object being pairwise different.
    [compareJSON] calls [deepEqual] on primitives only, where [a === b]
    decides. *)
Fixpoint deepEqual (a b : JsValue) {struct a} : bool :=
  if strictEq a b then true
  else if looseEqNull a || looseEqNull b then false
  else if negb (String.eqb (typeof a) (typeof b)) then false
  else if String.eqb (typeof a) "object" then
    if negb (Bool.eqb (isArray a) (isArray b)) then false
    else
      match a with
      | JArr items =>
          if negb (Nat.eqb (List.length items) (arrayLength b)) then false
          else
            (fix loop (l : list JsValue) (i : nat) {struct l} : bool :=
               match l with
               | [] => true
               | x :: l' =>
                   if negb (deepEqual x (getIndex b i)) then false
                   else loop l' (S i)
               end) items 0
      | JObj props =>
          let keysB := ownKeys b in
          if negb (Nat.eqb (List.length props) (List.length keysB)) then false
          else
            (fix loop (l : list (string * JsValue)) {struct l} : bool :=
               match l with
               | [] => true
               | (key, x) :: l' =>
                   if negb (includes keysB key) then false
                   else if negb (deepEqual x (getProp b key)) then false
                   else loop l'
               end) props
      | _ =>
          let keysB := ownKeys b in
          if negb (Nat.eqb (List.length (ownKeys a)) (List.length keysB))
          then false
          else true
      end
  else false.

(** ** [getValueType] *)
Definition getValueType (value : JsValue) : string :=
  if isNull value then "null"
  else if isArray value then "array"
  else typeof value.

(** ** [compareJSON] *)

(** [path || "/"] *)
Definition orSlash (path : string) : string :=
  if String.eqb path "" then "/" else path.

(** [c.type !== "unchanged"] *)
Definition isChanged (c : DiffNode) : bool :=
  match type c with Unchanged => false | _ => true end.

(** [children.some((c) => c.type !== "unchanged") ? "modified" : "unchanged"] *)
Definition containerType (children : list DiffNode) : DiffType :=
  if existsb isChanged children then Modified else Unchanged.

(** A [for] loop over [l] whose body pushes onto the array [children]; the
    body fails when the recursive call it makes does. *)
Fixpoint forEach {A : Type}
    (body : A -> list DiffNode -> option (list DiffNode))
    (l : list A) (children : list DiffNode) : option (list DiffNode) :=
  match l with
  | [] => Some children
  | x :: l' =>
      match body x children with
      | None => None
      | Some children' => forEach body l' children'
      end
  end.

(** The recursion of [compareJSON] runs on the call stack; [fuel] bounds its
    depth and [None] is the exhausted stack.  [compareJSON] below gives it
    the depth that the two values call for. *)
Fixpoint compareJSON_fuel (fuel : nat) (oldObj newObj : JsValue)
    (path : string) {struct fuel} : option (list DiffNode) :=
  match fuel with
  | 0 => None
  | S fuel' =>
    (* If both are primitive or null *)
    if (isNull oldObj || negb (String.eqb (typeof oldObj) "object"))
       && (isNull newObj || negb (String.eqb (typeof newObj) "object"))
    then
      if negb (deepEqual oldObj newObj)
      then Some [mkDiffNode (orSlash path) Modified
                            (Some oldObj) (Some newObj) None]
      else Some [mkDiffNode (orSlash path) Unchanged
                            (Some oldObj) (Some newObj) None]
    (* If types don't match *)
    else if negb (String.eqb (getValueType oldObj) (getValueType newObj))
    then Some [mkDiffNode (orSlash path) Modified
                          (Some oldObj) (Some newObj) None]
    (* Handle arrays *)
    else if isArray oldObj && isArray newObj then
      let maxLength := Nat.max (arrayLength oldObj) (arrayLength newObj) in
      match
        forEach
          (fun i children =>
             let itemPath := (path ++ "[" ++ indexToString i ++ "]")%string in
             if Nat.leb (arrayLength oldObj) i then
               Some (children ++
                     [mkDiffNode itemPath Added
                                 None (Some (getIndex newObj i)) None])
             else if Nat.leb (arrayLength newObj) i then
               Some (children ++
                     [mkDiffNode itemPath Removed
                                 (Some (getIndex oldObj i)) None None])
             else
               match compareJSON_fuel fuel' (getIndex oldObj i)
                                      (getIndex newObj i) itemPath with
               | None => None
               | Some itemDiffs => Some (children ++ itemDiffs)
               end)
          (seq 0 maxLength) []
      with
      | None => None
      | Some children =>
          Some [mkDiffNode (orSlash path) (containerType children)
                           (Some oldObj) (Some newObj) (Some children)]
      end
    (* Handle objects *)
    else if String.eqb (typeof oldObj) "object"
            && String.eqb (typeof newObj) "object" then
      let allKeys :=
        newSet (ownKeys (if truthy oldObj then oldObj else JObj []) ++
                ownKeys (if truthy newObj then newObj else JObj [])) in
      match
        forEach
          (fun key children =>
             let keyPath :=
               if negb (String.eqb path "") then (path ++ "." ++ key)%string
               else key in
             let hasOld := truthy oldObj && hasIn key oldObj in
             let hasNew := truthy newObj && hasIn key newObj in
             if negb hasOld && hasNew then
               Some (children ++
                     [mkDiffNode keyPath Added
                                 None (Some (getProp newObj key)) None])
             else if hasOld && negb hasNew then
               Some (children ++
                     [mkDiffNode keyPath Removed
                                 (Some (getProp oldObj key)) None None])
             else
               match compareJSON_fuel fuel' (getProp oldObj key)
                                      (getProp newObj key) keyPath with
               | None => None
               | Some keyDiffs => Some (children ++ keyDiffs)
               end)
          allKeys []
      with
      | None => None
      | Some children =>
          Some [mkDiffNode (orSlash path) (containerType children)
                           (Some oldObj) (Some newObj) (Some children)]
      end
    else Some []
  end.

(** The nesting depth of a value. *)
Fixpoint depth (v : JsValue) : nat :=
  match v with
  | JArr items => S (fold_right (fun x m => Nat.max (depth x) m) 0 items)
  | JObj props =>
      S (fold_right (fun kv m => Nat.max (depth (snd kv)) m) 0 props)
  | HObjProto => 1
  | _ => 0
  end.

(** [compareJSON(oldObj, newObj, path)] on a stack deep enough for its
    arguments (see [compareJSON_fuel_enough]). *)
Definition compareJSON (oldObj newObj : JsValue) (path : string)
  : option (list DiffNode) :=
  compareJSON_fuel (S (depth oldObj + depth newObj)) oldObj newObj path.

(** ** [getDiffStats] *)

Record DiffStats : Type :=
  mkDiffStats { added : nat; removed : nat; modified : nat; unchanged : nat }.

(** The [switch] on [node.type]: one of the four counters is incremented. *)
Definition bump (t : DiffType) (s : DiffStats) : DiffStats :=
  match t with
  | Added => mkDiffStats (S (added s)) (removed s) (modified s) (unchanged s)
  | Removed => mkDiffStats (added s) (S (removed s)) (modified s) (unchanged s)
  | Modified => mkDiffStats (added s) (removed s) (S (modified s)) (unchanged s)
  | Unchanged => mkDiffStats (added s) (removed s) (modified s) (S (unchanged s))
  end.

(** One turn of the loop of [countDiffs], the four counters of the
    enclosing function passed as state. *)
Fixpoint countNode (node : DiffNode) (s : DiffStats) {struct node}
  : DiffStats :=
  let s1 := bump (type node) s in
  match children node with
  | Some cs =>
      (fix countDiffs (nodes : list DiffNode) (s : DiffStats) {struct nodes}
         : DiffStats :=
         match nodes with
         | [] => s
         | n :: rest => countDiffs rest (countNode n s)
         end) cs s1
  | None => s1
  end.

Fixpoint countDiffs (nodes : list DiffNode) (s : DiffStats) : DiffStats :=
  match nodes with
  | [] => s
  | n :: rest => countDiffs rest (countNode n s)
  end.

Definition getDiffStats (diffs : list DiffNode) : DiffStats :=
  countDiffs diffs (mkDiffStats 0 0 0 0).

(** ** The loops, read as one list of pushed nodes

    What one turn of each loop of [compareJSON] pushes, as a function of the
    index or key alone; the loop then pushes their concatenation. *)

Fixpoint collect {A : Type} (g : A -> option (list DiffNode)) (l : list A)
  : option (list DiffNode) :=
  match l with
  | [] => Some []
  | x :: l' =>
      match g x with
      | None => None
      | Some ds =>
          match collect g l' with
          | None => None
          | Some rest => Some (ds ++ rest)
          end
      end
  end.

(** [`${path}[${i}]`] *)
Definition itemPathOf (path : string) (i : nat) : string :=
  (path ++ "[" ++ indexToString i ++ "]")%string.

(** What the loop over the indices pushes for the index [i]; [rec] is the
    recursive call. *)
Definition arrayItem (rec : JsValue -> JsValue -> string -> option (list DiffNode))
    (oldObj newObj : JsValue) (path : string) (i : nat)
  : option (list DiffNode) :=
  let itemPath := itemPathOf path i in
  if Nat.leb (arrayLength oldObj) i then
    Some [mkDiffNode itemPath Added None (Some (getIndex newObj i)) None]
  else if Nat.leb (arrayLength newObj) i then
    Some [mkDiffNode itemPath Removed (Some (getIndex oldObj i)) None None]
  else rec (getIndex oldObj i) (getIndex newObj i) itemPath.

(** [path ? `${path}.${key}` : key] *)
Definition keyPathOf (path key : string) : string :=
  if negb (String.eqb path "") then (path ++ "." ++ key)%string else key.

(** What the loop over the keys pushes for the key [key]. *)
Definition objectKey (rec : JsValue -> JsValue -> string -> option (list DiffNode))
    (oldObj newObj : JsValue) (path : string) (key : string)
  : option (list DiffNode) :=
  let keyPath := keyPathOf path key in
  let hasOld := truthy oldObj && hasIn key oldObj in
  let hasNew := truthy newObj && hasIn key newObj in
  if negb hasOld && hasNew then
    Some [mkDiffNode keyPath Added None (Some (getProp newObj key)) None]
  else if hasOld && negb hasNew then
    Some [mkDiffNode keyPath Removed (Some (getProp oldObj key)) None None]
  else rec (getProp oldObj key) (getProp newObj key) keyPath.

(** [new Set([...Object.keys(oldObj || {}), ...Object.keys(newObj || {})])] *)
Definition allKeysOf (oldObj newObj : JsValue) : list string :=
  newSet (ownKeys (if truthy oldObj then oldObj else JObj []) ++
          ownKeys (if truthy newObj then newObj else JObj [])).

(** The test of the first branch: both are primitive or null. *)
Definition bothPrimitive (oldObj newObj : JsValue) : bool :=
  (isNull oldObj || negb (String.eqb (typeof oldObj) "object"))
  && (isNull newObj || negb (String.eqb (typeof newObj) "object")).

(** The node of a comparison without children, and with children. *)
Definition leaf (path : string) (t : DiffType) (o n : JsValue) : DiffNode :=
  mkDiffNode (orSlash path) t (Some o) (Some n) None.

Definition container (path : string) (o n : JsValue) (cs : list DiffNode)
  : DiffNode :=
  mkDiffNode (orSlash path) (containerType cs) (Some o) (Some n) (Some cs).

(** ** What the properties are stated with *)

(** A non-array object: what reaches the object branch. *)
Definition isPlainObject (v : JsValue) : bool :=
  match v with JObj _ | HObjProto => true | _ => false end.

(** The branch of [compareJSON] that two values take. *)
Inductive Branch (a b : JsValue) : Prop :=
| BothPrimitive : bothPrimitive a b = true -> Branch a b
| KindMismatch :
    bothPrimitive a b = false ->
    String.eqb (getValueType a) (getValueType b) = false -> Branch a b
| BothArrays : forall xs ys, a = JArr xs -> b = JArr ys -> Branch a b
| BothObjects :
    isPlainObject a = true -> isPlainObject b = true -> Branch a b.

(** How the child [c] pushed for the index [i] of two arrays came about;
    [Q] is what is known of the recursive calls. *)
Inductive ArrayChild (Q : JsValue -> JsValue -> string -> DiffNode -> Prop)
    (xs ys : list JsValue) (p : string) (i : nat) (c : DiffNode) : Prop :=
| Child_index_added :
    List.length xs <= i -> i < List.length ys ->
    c = mkDiffNode (itemPathOf p i) Added
                   None (Some (nth i ys JUndefined)) None ->
    ArrayChild Q xs ys p i c
| Child_index_removed :
    List.length ys <= i -> i < List.length xs ->
    c = mkDiffNode (itemPathOf p i) Removed
                   (Some (nth i xs JUndefined)) None None ->
    ArrayChild Q xs ys p i c
| Child_index_both :
    i < List.length xs -> i < List.length ys ->
    compareJSON (nth i xs JUndefined) (nth i ys JUndefined) (itemPathOf p i)
    = Some [c] ->
    Q (nth i xs JUndefined) (nth i ys JUndefined) (itemPathOf p i) c ->
    ArrayChild Q xs ys p i c.

(** The same for the key [key] of two objects. *)
Inductive ObjectChild (Q : JsValue -> JsValue -> string -> DiffNode -> Prop)
    (a b : JsValue) (p : string) (key : string) (c : DiffNode) : Prop :=
| Child_key_added :
    hasIn key a = false -> In key (ownKeys b) ->
    c = mkDiffNode (keyPathOf p key) Added None (Some (getProp b key)) None ->
    ObjectChild Q a b p key c
| Child_key_removed :
    hasIn key b = false -> In key (ownKeys a) ->
    c = mkDiffNode (keyPathOf p key) Removed
                   (Some (getProp a key)) None None ->
    ObjectChild Q a b p key c
| Child_key_both :
    hasIn key a = true -> hasIn key b = true ->
    compareJSON (getProp a key) (getProp b key) (keyPathOf p key)
    = Some [c] ->
    Q (getProp a key) (getProp b key) (keyPathOf p key) c ->
    ObjectChild Q a b p key c.

(** One call of [compareJSON]: which branch it took and the node [t] it
    returned, [Q] holding of the recursive calls made for its children. *)
Inductive Call (Q : JsValue -> JsValue -> string -> DiffNode -> Prop)
    (a b : JsValue) (p : string) (t : DiffNode) : Prop :=
| Call_primitive :
    bothPrimitive a b = true ->
    t = leaf p (if deepEqual a b then Unchanged else Modified) a b ->
    Call Q a b p t
| Call_mismatch :
    String.eqb (getValueType a) (getValueType b) = false ->
    t = leaf p Modified a b ->
    Call Q a b p t
| Call_arrays : forall xs ys cs,
    a = JArr xs -> b = JArr ys ->
    Forall2 (ArrayChild Q xs ys p)
            (seq 0 (Nat.max (List.length xs) (List.length ys))) cs ->
    t = container p a b cs ->
    Call Q a b p t
| Call_objects : forall cs,
    isPlainObject a = true -> isPlainObject b = true ->
    Forall2 (ObjectChild Q a b p) (allKeysOf a b) cs ->
    t = container p a b cs ->
    Call Q a b p t.

(** All nodes of a tree, the root first. *)
Fixpoint nodesOf (d : DiffNode) : list DiffNode :=
  d :: match children d with
       | Some cs => flat_map nodesOf cs
       | None => []
       end.

(** All nodes of all trees of a forest. *)
Definition forestNodes (forest : list DiffNode) : list DiffNode :=
  flat_map nodesOf forest.

(** [c] was pushed for an index or a key that only [b] has. *)
Definition AddedFor (a b : JsValue) (c : DiffNode) : Prop :=
  oldValue c = None /\ children c = None /\
  ((exists i, isArray a = true /\ isArray b = true /\
              arrayLength a <= i < arrayLength b /\
              newValue c = Some (getIndex b i)) \/
   (exists key, isPlainObject a = true /\ isPlainObject b = true /\
                In key (ownKeys b) /\ hasIn key a = false /\
                newValue c = Some (getProp b key))).

(** [c] was pushed for an index or a key that only [a] has. *)
Definition RemovedFor (a b : JsValue) (c : DiffNode) : Prop :=
  newValue c = None /\ children c = None /\
  ((exists i, isArray a = true /\ isArray b = true /\
              arrayLength b <= i < arrayLength a /\
              oldValue c = Some (getIndex a i)) \/
   (exists key, isPlainObject a = true /\ isPlainObject b = true /\
                In key (ownKeys a) /\ hasIn key b = false /\
                oldValue c = Some (getProp a key))).

(** What holds of a child of the container that compares [a] and [b]. *)
Definition childOf (a b : JsValue) (c : DiffNode) : Prop :=
  match type c with
  | Added => AddedFor a b c
  | Removed => RemovedFor a b c
  | Modified | Unchanged => True
  end.

(** The shape of a node, read off its own fields and its children. *)
Definition nodeOK (n : DiffNode) : Prop :=
  match children n with
  | None =>
      match type n with
      | Added => oldValue n = None /\ exists v, newValue n = Some v
      | Removed => newValue n = None /\ exists v, oldValue n = Some v
      | t => exists a b, oldValue n = Some a /\ newValue n = Some b /\
                         t = if deepEqual a b then Unchanged else Modified
      end
  | Some cs =>
      exists a b, oldValue n = Some a /\ newValue n = Some b /\
                  type n = containerType cs /\ Forall (childOf a b) cs
  end.

(** The classifications a call gives the node it returns. *)
Definition rootType (n : DiffNode) : Prop :=
  type n = Modified \/ type n = Unchanged.

(** Equality of classifications. *)
Definition sameType (t u : DiffType) : bool :=
  match t, u with
  | Added, Added | Removed, Removed
  | Modified, Modified | Unchanged, Unchanged => true
  | _, _ => false
  end.

(** The number of nodes of a list that carry the classification [t]. *)
Definition countType (t : DiffType) (nodes : list DiffNode) : nat :=
  List.length (filter (fun n => sameType (type n) t) nodes).

(** The counters [s] after the nodes [nodes] have been counted. *)
Definition addCounts (s : DiffStats) (nodes : list DiffNode) : DiffStats :=
  mkDiffStats (added s + countType Added nodes)
              (removed s + countType Removed nodes)
              (modified s + countType Modified nodes)
              (unchanged s + countType Unchanged nodes).

(** [{"a": {"b": x}}] *)
Definition nestedDoc (x : float) : JsValue :=
  JObj [("a", JObj [("b", JNum x)])].

(** [{"age": 30, "tags": ["x", null, true], "toString": {"k": 0}}] *)
Definition sampleDoc : JsValue :=
  JObj [("age", JNum 30); ("tags", JArr [JStr "x"; JNull; JBool true]);
        ("toString", JObj [("k", JNum 0)])].

(** Added and removed exchanged. *)
Definition swapType (t : DiffType) : DiffType :=
  match t with
  | Added => Removed
  | Removed => Added
  | Modified => Modified
  | Unchanged => Unchanged
  end.

(** [d'] is [d] with old and new exchanged: same path, added and removed
    exchanged, the two values exchanged, and the children of [d'] are,
    in some order, the mirrors of the children of [d]. *)
Unset Elimination Schemes.
Inductive Mirrored : DiffNode -> DiffNode -> Prop :=
| Mirrored_leaf : forall p t o w,
    Mirrored (mkDiffNode p t o w None) (mkDiffNode p (swapType t) w o None)
| Mirrored_container : forall p t o w cs cs' cs'',
    Forall2 Mirrored cs cs'' -> Permutation cs'' cs' ->
    Mirrored (mkDiffNode p t o w (Some cs))
             (mkDiffNode p (swapType t) w o (Some cs')).
Set Elimination Schemes.

(** What a node says of its place: path, classification, old and new. *)
Definition Entry : Type :=
  (string * DiffType * option JsValue * option JsValue)%type.

Definition entryOf (n : DiffNode) : Entry :=
  (path n, type n, oldValue n, newValue n).

Definition swapEntry (e : Entry) : Entry :=
  match e with (p, t, o, w) => (p, swapType t, w, o) end.

Definition entries (d : DiffNode) : list Entry := map entryOf (nodesOf d).

(** ** [formatValue] *)

(** The double quote character. *)
Definition quote : string := String "034"%char EmptyString.

(** [String(value)] of a number and of a function is left to the two
    parameters; [`${n}`] of a length is its decimal numeral. *)
Definition formatValue (numberToString : float -> string)
    (functionToString : string -> string) (value : JsValue) : string :=
  match value with
  | JNull => "null"
  | JUndefined => "undefined"
  | JStr s => (quote ++ s ++ quote)%string
  | JArr items =>
      ("[" ++ indexToString (List.length items) ++ " items]")%string
  | JObj _ | HObjProto =>
      ("{" ++ indexToString (List.length (ownKeys value)) ++ " keys}")%string
  | JBool b => if b then "true" else "false"
  | JNum x => numberToString x
  | HFun name => functionToString name
  end.

(** ** [DiffViewer]: what a node displays *)

(** [node.children && node.children.length > 0] *)
Definition hasChildren (node : DiffNode) : bool :=
  match children node with
  | Some cs => Nat.ltb 0 (List.length cs)
  | None => false
  end.

Definition isLeaf (node : DiffNode) : bool := negb (hasChildren node).

(** [field !== undefined], of an optional field. *)
Definition notUndefined (field : option JsValue) : bool :=
  match field with
  | None | Some JUndefined => false
  | Some _ => true
  end.

(** The guards of the "Old:" and "New:" lines of a node. *)
Definition showsOld (node : DiffNode) : bool :=
  isLeaf node && (notUndefined (oldValue node)
                  && negb (sameType (type node) Added)).

Definition showsNew (node : DiffNode) : bool :=
  isLeaf node && (notUndefined (newValue node)
                  && negb (sameType (type node) Removed)).

(** ** [InlineDiffEditor]: the paths to highlight *)

(** [collectPaths(nodes, paths)]: the set [paths] is passed as state. *)
Fixpoint collectPathsNode (node : DiffNode) (paths : list string)
    {struct node} : list string :=
  let paths1 := if isChanged node then setAdd paths (path node) else paths in
  match children node with
  | Some cs =>
      (fix collectPaths (nodes : list DiffNode) (paths : list string)
           {struct nodes} : list string :=
         match nodes with
         | [] => paths
         | n :: rest => collectPaths rest (collectPathsNode n paths)
         end) cs paths1
  | None => paths1
  end.

Fixpoint collectPaths (nodes : list DiffNode) (paths : list string)
  : list string :=
  match nodes with
  | [] => paths
  | n :: rest => collectPaths rest (collectPathsNode n paths)
  end.

(** [findDiffByPath(nodes, path)]; [wanted] is the path looked for.  A
    node found among the children is an object, hence truthy. *)
Fixpoint findDiffInNode (node : DiffNode) (wanted : string) {struct node}
  : option DiffNode :=
  if String.eqb (path node) wanted then Some node
  else
    match children node with
    | Some cs =>
        (fix findDiffByPath (nodes : list DiffNode) : option DiffNode :=
           match nodes with
           | [] => None
           | n :: rest =>
               match findDiffInNode n wanted with
               | Some found => Some found
               | None => findDiffByPath rest
               end
           end) cs
    | None => None
    end.

Definition findDiffByPath (nodes : list DiffNode) (wanted : string)
  : option DiffNode :=
  (fix findDiffByPath (nodes : list DiffNode) : option DiffNode :=
     match nodes with
     | [] => None
     | n :: rest =>
         match findDiffInNode n wanted with
         | Some found => Some found
         | None => findDiffByPath rest
         end
     end) nodes.

(** ** [validateJSON] and the handlers of the page *)

Record JsonValidationResult : Type :=
  mkValidation {
    isValid : bool;
    error : option string;
    parsed : option JsValue
  }.

(** [JSON.parse] returns a value or throws an error with a message;
    [String.prototype.trim] and the parser are parameters. *)
Definition validateJSON (trim : string -> string)
    (JSONparse : string -> JsValue + string) (jsonString : string)
  : JsonValidationResult :=
  if String.eqb jsonString "" || String.eqb (trim jsonString) "" then
    mkValidation false (Some "Empty JSON input") None
  else
    match JSONparse jsonString with
    | inl value => mkValidation true None (Some value)
    | inr message => mkValidation false (Some message) None
    end.

(** An optional field read: [undefined] when absent. *)
Definition fieldValue (field : option JsValue) : JsValue :=
  match field with Some v => v | None => JUndefined end.

(** [formatJSON(obj, indent)]: [JSON.stringify] is a parameter that
    returns [None] when it throws, [String(obj)] another. *)
Definition formatJSON (JSONstringify : JsValue -> nat -> option string)
    (toString : JsValue -> string) (obj : JsValue) (indent : nat) : string :=
  match JSONstringify obj indent with
  | Some text => text
  | None => toString obj
  end.

(** The state of the page, and the toast a handler shows. *)
Record PageState : Type :=
  mkPage {
    leftJson : string;
    rightJson : string;
    diffs : list DiffNode;
    isComparing : bool
  }.

Record Toast : Type :=
  mkToast { title : string; description : string; destructive : bool }.

(** [handleCompare]; [stack] is the number of nested calls of
    [compareJSON] that the call stack has room for: exhausting it is the
    exception that the [catch] turns into "Comparison Failed". *)
Definition handleCompare (trim : string -> string)
    (JSONparse : string -> JsValue + string) (stack : nat) (st : PageState)
  : PageState * Toast :=
  let leftValidation := validateJSON trim JSONparse (leftJson st) in
  let rightValidation := validateJSON trim JSONparse (rightJson st) in
  if negb (isValid leftValidation) then
    (mkPage (leftJson st) (rightJson st) (diffs st) false,
     mkToast "Invalid JSON"
       ("Original JSON: " ++
        match error leftValidation with Some e => e | None => "undefined" end)
       true)
  else if negb (isValid rightValidation) then
    (mkPage (leftJson st) (rightJson st) (diffs st) false,
     mkToast "Invalid JSON"
       ("Modified JSON: " ++
        match error rightValidation with Some e => e | None => "undefined" end)
       true)
  else
    match compareJSON_fuel stack (fieldValue (parsed leftValidation))
                           (fieldValue (parsed rightValidation)) "" with
    | Some result =>
        (mkPage (leftJson st) (rightJson st) result false,
         mkToast "Comparison Complete" "JSON objects compared successfully"
                 false)
    | None =>
        (mkPage (leftJson st) (rightJson st) (diffs st) false,
         mkToast "Comparison Failed" "An error occurred during comparison"
                 true)
    end.

Inductive Side : Type := LeftSide | RightSide.

(** [side === "left" ? leftJson : rightJson] *)
Definition textOf (side : Side) (st : PageState) : string :=
  match side with LeftSide => leftJson st | RightSide => rightJson st end.

(** [handleFormat(side)] *)
Definition handleFormat (trim : string -> string)
    (JSONparse : string -> JsValue + string)
    (JSONstringify : JsValue -> nat -> option string)
    (toString : JsValue -> string) (side : Side) (st : PageState)
  : PageState * Toast :=
  let jsonString := textOf side st in
  let validation := validateJSON trim JSONparse jsonString in
  if isValid validation && truthy (fieldValue (parsed validation)) then
    let formatted :=
      formatJSON JSONstringify toString (fieldValue (parsed validation)) 2 in
    (match side with
     | LeftSide => mkPage formatted (rightJson st) (diffs st) (isComparing st)
     | RightSide => mkPage (leftJson st) formatted (diffs st) (isComparing st)
     end,
     mkToast "Formatted" "JSON has been formatted" false)
  else
    (st, mkToast "Format Failed" "Cannot format invalid JSON" true).

(** [handleExportDiff]: the text of the downloaded report, if any;
    [JSON.stringify(diffs, null, 2)] is a parameter. *)
Definition handleExportDiff (stringifyDiffs : list DiffNode -> string)
    (st : PageState) : option string * Toast :=
  if Nat.eqb (List.length (diffs st)) 0 then
    (None,
     mkToast "No Diff to Export" "Please compare JSON objects first" true)
  else
    (Some (stringifyDiffs (diffs st)),
     mkToast "Exported" "Diff report downloaded successfully" false).

(** ** What the further properties are stated with *)

(** The two loops of [deepEqual], named. *)
Definition equalItems (b : JsValue) : list JsValue -> nat -> bool :=
  fix loop (l : list JsValue) (i : nat) {struct l} : bool :=
    match l with
    | [] => true
    | x :: l' =>
        if negb (deepEqual x (getIndex b i)) then false
        else loop l' (S i)
    end.

Definition equalProps (b : JsValue) (keysB : list string)
  : list (string * JsValue) -> bool :=
  fix loop (l : list (string * JsValue)) {struct l} : bool :=
    match l with
    | [] => true
    | (key, x) :: l' =>
        if negb (includes keysB key) then false
        else if negb (deepEqual x (getProp b key)) then false
        else loop l'
    end.

(** A value of a document, or what [obj[key]] reads for an inherited key
    of one: a built-in function or [Object.prototype]. *)
Definition fromDocument (v : JsValue) : bool :=
  isValue v || match v with HFun _ | HObjProto => true | _ => false end.

(** [{"b": 2, "a": [1, {}]}] and the same object with its keys in the
    other order. *)
Definition docBA : JsValue :=
  JObj [("b", JNum 2); ("a", JArr [JNum 1; JObj []])].

Definition docAB : JsValue :=
  JObj [("a", JArr [JNum 1; JObj []]); ("b", JNum 2)].

(** Both values are arrays, or both are non-array objects: what the array
    branch and the object branch of [compareJSON] take. *)
Definition bothContainers (a b : JsValue) : bool :=
  (isArray a && isArray b) || (isPlainObject a && isPlainObject b).

(** The keys that the new list has and the old list lacks. *)
Definition newKeys (old new : list string) : list string :=
  filter (fun key => negb (includes old key)) new.

(** The paths of the changed nodes of a list, in its order. *)
Definition changedPathsOf (nodes : list DiffNode) : list string :=
  map path (filter isChanged nodes).

(** A parser for the examples: it knows four texts. *)
Definition parseExample (text : string) : JsValue + string :=
  if String.eqb text "1" then inl (JNum 1)
  else if String.eqb text "0" then inl (JNum 0)
  else if String.eqb text "[1]" then inl (JArr [JNum 1])
  else if String.eqb text "{}" then inl (JObj [])
  else inr "Unexpected token".

(** The values that [formatValue] prints with [String(value)]. *)
Definition printsItself (v : JsValue) : bool :=
  match v with JNum _ | HFun _ => true | _ => false end.

(** What two values that [formatValue] prints alike have in common. *)
Definition sameSummary (a b : JsValue) : Prop :=
  match a, b with
  | JNull, JNull => True
  | JBool x, JBool y => x = y
  | JStr s, JStr s' => s = s'
  | JArr xs, JArr ys => List.length xs = List.length ys
  | (JObj _ | HObjProto), (JObj _ | HObjProto) =>
      List.length (ownKeys a) = List.length (ownKeys b)
  | _, _ => False
  end.

(** * Properties *)

(** ** Reading the code *)

(** *** The loops *)

Lemma forEach_collect {A : Type}
    (g : A -> option (list DiffNode))
    (body : A -> list DiffNode -> option (list DiffNode)) :
  (forall x c, body x c = option_map (app c) (g x)) ->
  forall l c, forEach body l c = option_map (app c) (collect g l).
Proof.
  intros Hbody l; induction l as [|x l IH]; intros c; simpl.
  - now rewrite app_nil_r.
  - rewrite Hbody. destruct (g x) as [ds|]; simpl; [|reflexivity].
    rewrite IH. destruct (collect g l) as [rest|]; simpl; [|reflexivity].
    now rewrite app_assoc.
Qed.

(** The unfolding of one call, its loops read through [collect]. *)
Lemma compareJSON_fuel_S fuel oldObj newObj path :
  compareJSON_fuel (S fuel) oldObj newObj path =
  if bothPrimitive oldObj newObj then
    Some [leaf path (if deepEqual oldObj newObj then Unchanged else Modified)
               oldObj newObj]
  else if negb (String.eqb (getValueType oldObj) (getValueType newObj)) then
    Some [leaf path Modified oldObj newObj]
  else if isArray oldObj && isArray newObj then
    option_map (fun cs => [container path oldObj newObj cs])
      (collect (arrayItem (compareJSON_fuel fuel) oldObj newObj path)
         (seq 0 (Nat.max (arrayLength oldObj) (arrayLength newObj))))
  else if String.eqb (typeof oldObj) "object"
          && String.eqb (typeof newObj) "object" then
    option_map (fun cs => [container path oldObj newObj cs])
      (collect (objectKey (compareJSON_fuel fuel) oldObj newObj path)
         (allKeysOf oldObj newObj))
  else Some [].
Proof.
  cbn [compareJSON_fuel]. fold (bothPrimitive oldObj newObj).
  destruct (bothPrimitive oldObj newObj).
  { now destruct (deepEqual oldObj newObj). }
  destruct (negb (String.eqb (getValueType oldObj) (getValueType newObj)));
    [reflexivity|].
  destruct (isArray oldObj && isArray newObj).
  { rewrite (forEach_collect
               (arrayItem (compareJSON_fuel fuel) oldObj newObj path)).
    - now destruct (collect _ _).
    - intros i c. unfold arrayItem, itemPathOf.
      destruct (Nat.leb (arrayLength oldObj) i); [reflexivity|].
      destruct (Nat.leb (arrayLength newObj) i); [reflexivity|].
      now destruct (compareJSON_fuel fuel _ _ _). }
  destruct (String.eqb (typeof oldObj) "object"
            && String.eqb (typeof newObj) "object"); [|reflexivity].
  fold (allKeysOf oldObj newObj).
  rewrite (forEach_collect
             (objectKey (compareJSON_fuel fuel) oldObj newObj path)).
  - now destruct (collect _ _).
  - intros key c. unfold objectKey, keyPathOf.
    destruct (negb (truthy oldObj && hasIn key oldObj)
              && (truthy newObj && hasIn key newObj)); [reflexivity|].
    destruct ((truthy oldObj && hasIn key oldObj)
              && negb (truthy newObj && hasIn key newObj)); [reflexivity|].
    now destruct (compareJSON_fuel fuel _ _ _).
Qed.

(** *** The four branches *)

Lemma branch_cases a b : Branch a b.
Proof.
  destruct a, b;
    try (apply BothPrimitive; reflexivity);
    try (apply KindMismatch; reflexivity);
    try (eapply BothArrays; reflexivity);
    try (apply BothObjects; reflexivity).
Qed.

Lemma compare_prim fuel a b p :
  bothPrimitive a b = true ->
  compareJSON_fuel (S fuel) a b p =
  Some [leaf p (if deepEqual a b then Unchanged else Modified) a b].
Proof. intros H. now rewrite compareJSON_fuel_S, H. Qed.

Lemma compare_mismatch fuel a b p :
  bothPrimitive a b = false ->
  String.eqb (getValueType a) (getValueType b) = false ->
  compareJSON_fuel (S fuel) a b p = Some [leaf p Modified a b].
Proof. intros H1 H2. now rewrite compareJSON_fuel_S, H1, H2. Qed.

Lemma compare_arrays fuel xs ys p :
  compareJSON_fuel (S fuel) (JArr xs) (JArr ys) p =
  option_map (fun cs => [container p (JArr xs) (JArr ys) cs])
    (collect (arrayItem (compareJSON_fuel fuel) (JArr xs) (JArr ys) p)
       (seq 0 (Nat.max (List.length xs) (List.length ys)))).
Proof. now rewrite compareJSON_fuel_S. Qed.

Lemma compare_objects fuel a b p :
  isPlainObject a = true -> isPlainObject b = true ->
  compareJSON_fuel (S fuel) a b p =
  option_map (fun cs => [container p a b cs])
    (collect (objectKey (compareJSON_fuel fuel) a b p) (allKeysOf a b)).
Proof.
  intros Ha Hb. rewrite compareJSON_fuel_S.
  destruct a; try discriminate Ha; destruct b; try discriminate Hb;
    reflexivity.
Qed.

(** *** Lists of pushed nodes *)

Lemma collect_Forall2 {A : Type} (g : A -> option (list DiffNode)) l :
  (forall x, In x l -> exists n, g x = Some [n]) ->
  exists cs, collect g l = Some cs /\
             Forall2 (fun x n => g x = Some [n]) l cs.
Proof.
  induction l as [|x l IH]; intros H; simpl.
  - exists []. split; [reflexivity|constructor].
  - destruct (H x (or_introl eq_refl)) as [n Hn].
    destruct IH as [cs [Hcs HF]]; [intros y Hy; apply H; now right|].
    rewrite Hn, Hcs. exists (n :: cs). split; [reflexivity|].
    now constructor.
Qed.

Lemma collect_inv {A : Type} (g : A -> option (list DiffNode)) l cs :
  collect g l = Some cs ->
  (forall x ds, In x l -> g x = Some ds -> exists n, ds = [n]) ->
  Forall2 (fun x n => g x = Some [n]) l cs.
Proof.
  revert cs; induction l as [|x l IH]; intros cs Hc H1; simpl in Hc.
  - injection Hc as <-. constructor.
  - destruct (g x) as [ds|] eqn:Hx; [|discriminate].
    destruct (collect g l) as [rest|] eqn:Hr; [|discriminate].
    injection Hc as <-.
    destruct (H1 x ds (or_introl eq_refl) Hx) as [n ->]. simpl.
    constructor; [exact Hx|].
    apply IH; [reflexivity|]. intros y ds' Hy. apply H1. now right.
Qed.

Lemma collect_ext {A : Type} (g h : A -> option (list DiffNode)) l :
  (forall x, In x l -> g x = h x) -> collect g l = collect h l.
Proof.
  induction l as [|x l IH]; intros H; simpl; [reflexivity|].
  rewrite (H x (or_introl eq_refl)), IH; [reflexivity|].
  intros y Hy. apply H. now right.
Qed.

Lemma collect_mono {A : Type} (g h : A -> option (list DiffNode)) l :
  (forall x ds, In x l -> g x = Some ds -> h x = Some ds) ->
  forall cs, collect g l = Some cs -> collect h l = Some cs.
Proof.
  induction l as [|x l IH]; intros H cs; simpl; [trivial|].
  destruct (g x) as [ds|] eqn:Hx; [|discriminate].
  rewrite (H x ds (or_introl eq_refl) Hx).
  destruct (collect g l) as [rest|] eqn:Hr; [|discriminate].
  rewrite (IH (fun y ds' Hy => H y ds' (or_intror Hy)) rest eq_refl).
  trivial.
Qed.

(** Children related one by one to those another loop body pushes. *)
Lemma collect_related {A : Type} (O : A -> DiffNode -> Prop)
    (R : DiffNode -> DiffNode -> Prop)
    (g' : A -> option (list DiffNode)) l :
  (forall x c, In x l -> O x c -> exists c', g' x = Some [c'] /\ R c c') ->
  forall cs,
    Forall2 O l cs ->
    exists cs', collect g' l = Some cs' /\ Forall2 R cs cs'.
Proof.
  induction l as [|x l IH]; intros H cs HF; inversion HF; subst; simpl.
  - exists []. split; [reflexivity|constructor].
  - destruct (H x y (or_introl eq_refl) H2) as [c' [Hc' HR]].
    destruct (IH (fun z c Hz => H z c (or_intror Hz)) l' H4)
      as [cs' [Hcs' HF']].
    rewrite Hc', Hcs'. exists (c' :: cs'). split; [reflexivity|].
    now constructor.
Qed.

(** Visiting the keys in another order permutes the children. *)
Lemma collect_Permutation {A : Type} (g : A -> option (list DiffNode)) l l' :
  Permutation l l' ->
  forall cs, collect g l = Some cs ->
    exists cs', collect g l' = Some cs' /\ Permutation cs cs'.
Proof.
  induction 1 as [|x l l' _ IH|x y l|l l' l'' _ IH1 _ IH2]; intros cs Hc.
  - exists cs. split; [assumption|apply Permutation_refl].
  - simpl in Hc |- *. destruct (g x) as [ds|]; [|discriminate].
    destruct (collect g l) as [rest|]; [|discriminate].
    injection Hc as <-. destruct (IH rest eq_refl) as [rest' [-> HP]].
    exists (ds ++ rest'). split; [reflexivity|].
    now apply Permutation_app_head.
  - simpl in Hc |- *. destruct (g y) as [dy|]; [|discriminate].
    destruct (g x) as [dx|]; [|discriminate].
    destruct (collect g l) as [rest|]; [|discriminate].
    injection Hc as <-. exists (dx ++ dy ++ rest).
    split; [reflexivity|]. apply Permutation_app_swap_app.
  - destruct (IH1 cs Hc) as [cs1 [H1 P1]].
    destruct (IH2 cs1 H1) as [cs2 [H2 P2]].
    exists cs2. split; [assumption|]. eapply Permutation_trans; eassumption.
Qed.

Lemma Forall2_Forall_r {A B : Type} (R : A -> B -> Prop) (Q : B -> Prop)
    l cs :
  Forall2 R l cs -> (forall x c, In x l -> R x c -> Q c) -> Forall Q cs.
Proof.
  induction 1 as [|x c l cs HR _ IH]; intros H; constructor.
  - apply (H x c); [now left|assumption].
  - apply IH. intros y d Hy. apply H. now right.
Qed.

Lemma Forall2_weaken {A B : Type} (R R' : A -> B -> Prop) l cs :
  Forall2 R l cs -> (forall x c, In x l -> R x c -> R' x c) ->
  Forall2 R' l cs.
Proof.
  induction 1 as [|x c l cs HR _ IH]; intros H; constructor.
  - apply H; [now left|assumption].
  - apply IH. intros y d Hy. apply H. now right.
Qed.

Lemma Forall2_seq_nth_error {B : Type} (R : nat -> B -> Prop) n :
  forall s cs,
    Forall2 R (seq s n) cs ->
    List.length cs = n /\
    forall i, i < n -> exists c, nth_error cs i = Some c /\ R (s + i) c.
Proof.
  induction n as [|n IH]; intros s cs H; simpl in H; inversion H; subst.
  - split; [reflexivity|]. intros i Hi. lia.
  - destruct (IH (S s) _ H4) as [Hlen Hnth]. split; [simpl; lia|].
    intros [|i] Hi; simpl.
    + rewrite Nat.add_0_r. eauto.
    + destruct (Hnth i) as [c [Hc HR]]; [lia|].
      exists c. split; [assumption|]. now rewrite Nat.add_succ_r.
Qed.

(** *** Every call returns exactly one node *)

Lemma arrayItem_singleton rec a b p i ds :
  (forall x y q r, rec x y q = Some r -> exists n, r = [n]) ->
  arrayItem rec a b p i = Some ds -> exists n, ds = [n].
Proof.
  intros Hrec. unfold arrayItem.
  destruct (Nat.leb (arrayLength a) i); [intros [= <-]; eauto|].
  destruct (Nat.leb (arrayLength b) i); [intros [= <-]; eauto|].
  apply Hrec.
Qed.

Lemma objectKey_singleton rec a b p key ds :
  (forall x y q r, rec x y q = Some r -> exists n, r = [n]) ->
  objectKey rec a b p key = Some ds -> exists n, ds = [n].
Proof.
  intros Hrec. unfold objectKey.
  destruct (negb _ && _); [intros [= <-]; eauto|].
  destruct (_ && negb _); [intros [= <-]; eauto|].
  apply Hrec.
Qed.

Lemma compareJSON_fuel_singleton fuel :
  forall a b p r,
    compareJSON_fuel fuel a b p = Some r -> exists n, r = [n].
Proof.
  destruct fuel as [|fuel]; intros a b p r H; [discriminate|].
  destruct (branch_cases a b) as [Hp|Hp Hk|xs ys -> ->|Ha Hb].
  - rewrite compare_prim in H by assumption. injection H as <-. eauto.
  - rewrite compare_mismatch in H by assumption. injection H as <-. eauto.
  - rewrite compare_arrays in H. destruct (collect _ _); [|discriminate].
    injection H as <-. eauto.
  - rewrite compare_objects in H by assumption.
    destruct (collect _ _); [|discriminate]. injection H as <-. eauto.
Qed.
(** *** Keys and sets *)

Lemma includes_In keys key : includes keys key = true <-> In key keys.
Proof.
  unfold includes. rewrite existsb_exists. split.
  - intros [k [Hin Heq]]. apply String.eqb_eq in Heq. now subst.
  - intros Hin. exists key. split; [assumption|apply String.eqb_refl].
Qed.

Lemma includes_false keys key : includes keys key = false <-> ~ In key keys.
Proof.
  rewrite <- includes_In. destruct (includes keys key); split; intros;
    congruence.
Qed.

Lemma setAdd_fold_In l : forall s key,
  In key (fold_left setAdd l s) <-> In key s \/ In key l.
Proof.
  induction l as [|k l IH]; intros s key; simpl; [tauto|].
  rewrite IH. unfold setAdd. destruct (includes s k) eqn:Hk.
  - apply includes_In in Hk. split; [tauto|].
    intros [H|[<-|H]]; tauto.
  - rewrite in_app_iff. simpl. tauto.
Qed.

Lemma setAdd_fold_NoDup l : forall s,
  NoDup s -> NoDup (fold_left setAdd l s).
Proof.
  induction l as [|k l IH]; intros s Hs; simpl; [assumption|].
  apply IH. unfold setAdd. destruct (includes s k) eqn:Hk; [assumption|].
  apply includes_false in Hk.
  apply NoDup_app; [assumption|repeat constructor; simpl; tauto|].
  intros x Hx [<-|[]]. contradiction.
Qed.

Lemma newSet_In l key : In key (newSet l) <-> In key l.
Proof. unfold newSet. rewrite setAdd_fold_In. simpl. tauto. Qed.

Lemma newSet_NoDup l : NoDup (newSet l).
Proof. apply setAdd_fold_NoDup. constructor. Qed.

Lemma plainObject_truthy v : isPlainObject v = true -> truthy v = true.
Proof. now destruct v. Qed.

Lemma allKeysOf_In a b key :
  isPlainObject a = true -> isPlainObject b = true ->
  (In key (allKeysOf a b) <-> In key (ownKeys a) \/ In key (ownKeys b)).
Proof.
  intros Ha Hb. unfold allKeysOf.
  rewrite (plainObject_truthy a Ha), (plainObject_truthy b Hb).
  now rewrite newSet_In, in_app_iff.
Qed.

Lemma ownProp_In props key :
  In key (map fst props) -> exists v, ownProp props key = Some v.
Proof.
  induction props as [|[k v] props IH]; simpl; [tauto|].
  intros [->|H].
  - rewrite String.eqb_refl. eauto.
  - destruct (String.eqb k key); eauto.
Qed.

Lemma ownProp_Some props key v :
  ownProp props key = Some v -> In (key, v) props.
Proof.
  induction props as [|[k x] props IH]; simpl; [discriminate|].
  destruct (String.eqb k key) eqn:E.
  - apply String.eqb_eq in E. intros [= <-]. subst. now left.
  - intros H. right. auto.
Qed.

Lemma hasIn_own v key :
  isPlainObject v = true -> In key (ownKeys v) -> hasIn key v = true.
Proof.
  destruct v; try discriminate; simpl; [|tauto].
  intros _ H. destruct (ownProp_In _ _ H) as [x ->]. reflexivity.
Qed.

(** *** Depth of the values read from a container *)

Lemma depth_item xs x :
  In x xs -> depth x < depth (JArr xs).
Proof.
  simpl. induction xs as [|y xs IH]; simpl; [tauto|].
  intros [->|H]; [lia|]. specialize (IH H). lia.
Qed.

Lemma depth_prop props key v :
  In (key, v) props -> depth v < depth (JObj props).
Proof.
  simpl. induction props as [|[k y] props IH]; simpl; [tauto|].
  intros [[= -> ->]|H]; [lia|]. specialize (IH H). lia.
Qed.

Lemma depth_getIndex xs i :
  i < List.length xs -> depth (getIndex (JArr xs) i) < depth (JArr xs).
Proof. intros H. apply depth_item. simpl. now apply nth_In. Qed.

Lemma depth_protoProp self key :
  depth (protoProp self key) <= (if self then 0 else 1).
Proof.
  unfold protoProp. destruct (String.eqb key "__proto__").
  - destruct self; simpl; lia.
  - destruct (includes objectPrototypeKeys key), self; simpl; lia.
Qed.

Lemma depth_getProp_le v key :
  isPlainObject v = true -> depth (getProp v key) <= depth v.
Proof.
  destruct v; try discriminate; intros _; unfold getProp.
  - destruct (ownProp props key) as [x|] eqn:E.
    + apply ownProp_Some, depth_prop in E. lia.
    + pose proof (depth_protoProp false key). simpl in *. lia.
  - pose proof (depth_protoProp true key). simpl in *. lia.
Qed.

Lemma depth_getProp_lt v key :
  isPlainObject v = true -> In key (ownKeys v) ->
  depth (getProp v key) < depth v.
Proof.
  destruct v; try discriminate; intros _; [|simpl; tauto].
  intros H. unfold getProp. destruct (ownProp_In _ _ H) as [x E].
  rewrite E. now apply ownProp_Some, depth_prop in E.
Qed.

Lemma depth_props a b key :
  isPlainObject a = true -> isPlainObject b = true ->
  In key (allKeysOf a b) ->
  depth (getProp a key) + depth (getProp b key) < depth a + depth b.
Proof.
  intros Ha Hb Hk. apply allKeysOf_In in Hk; try assumption.
  pose proof (depth_getProp_le a key Ha).
  pose proof (depth_getProp_le b key Hb).
  destruct Hk as [Hk|Hk].
  - pose proof (depth_getProp_lt a key Ha Hk). lia.
  - pose proof (depth_getProp_lt b key Hb Hk). lia.
Qed.

(** *** Termination: a stack as deep as the values suffices *)

Lemma compareJSON_fuel_enough fuel :
  forall a b p,
    depth a + depth b < fuel ->
    exists n, compareJSON_fuel fuel a b p = Some [n].
Proof.
  induction fuel as [|fuel IH]; intros a b p Hd; [lia|].
  destruct (branch_cases a b) as [Hp|Hp Hk|xs ys -> ->|Ha Hb].
  - rewrite compare_prim by assumption. eauto.
  - rewrite compare_mismatch by assumption. eauto.
  - rewrite compare_arrays.
    edestruct (collect_Forall2
                 (arrayItem (compareJSON_fuel fuel) (JArr xs) (JArr ys) p))
      as [cs [-> _]]; [|simpl; eauto].
    intros i _. unfold arrayItem. cbn [arrayLength].
    destruct (Nat.leb (List.length xs) i) eqn:E1; [eauto|].
    destruct (Nat.leb (List.length ys) i) eqn:E2; [eauto|].
    apply Nat.leb_gt in E1, E2. apply IH.
    pose proof (depth_getIndex xs i E1).
    pose proof (depth_getIndex ys i E2). lia.
  - rewrite compare_objects by assumption.
    edestruct (collect_Forall2 (objectKey (compareJSON_fuel fuel) a b p))
      as [cs [-> _]]; [|simpl; eauto].
    intros key Hkey. unfold objectKey.
    destruct (negb _ && _); [eauto|]. destruct (_ && negb _); [eauto|].
    apply IH. pose proof (depth_props a b key Ha Hb Hkey). lia.
Qed.

Lemma compareJSON_fuel_S_mono fuel :
  forall a b p r,
    compareJSON_fuel fuel a b p = Some r ->
    compareJSON_fuel (S fuel) a b p = Some r.
Proof.
  induction fuel as [|fuel IH]; intros a b p r H; [discriminate|].
  rewrite compareJSON_fuel_S in H. rewrite compareJSON_fuel_S.
  destruct (bothPrimitive a b); [assumption|].
  destruct (negb _); [assumption|].
  destruct (isArray a && isArray b).
  { destruct (collect _ _) as [cs|] eqn:Hc in H; [|discriminate].
    erewrite collect_mono; [exact H| |exact Hc].
    intros i ds _. unfold arrayItem.
    destruct (Nat.leb _ _); [trivial|]. destruct (Nat.leb _ _); [trivial|].
    apply IH. }
  destruct (_ && _); [|assumption].
  destruct (collect _ _) as [cs|] eqn:Hc in H; [|discriminate].
  erewrite collect_mono; [exact H| |exact Hc].
  intros key ds _. unfold objectKey.
  destruct (negb _ && _); [trivial|]. destruct (_ && negb _); [trivial|].
  apply IH.
Qed.

Lemma compareJSON_fuel_mono fuel fuel' a b p r :
  fuel <= fuel' ->
  compareJSON_fuel fuel a b p = Some r ->
  compareJSON_fuel fuel' a b p = Some r.
Proof.
  induction 1 as [|m Hle IH]; [trivial|].
  intros H. now apply compareJSON_fuel_S_mono, IH.
Qed.

(** With enough fuel the result no longer depends on the fuel. *)
Lemma compareJSON_fuel_stable fuel a b p :
  depth a + depth b < fuel ->
  compareJSON_fuel fuel a b p = compareJSON a b p.
Proof.
  intros Hd. unfold compareJSON.
  destruct (compareJSON_fuel_enough (S (depth a + depth b)) a b p) as [n Hn];
    [lia|].
  rewrite Hn. eapply compareJSON_fuel_mono; [|exact Hn]. lia.
Qed.

Lemma compareJSON_defined a b p :
  exists node, compareJSON a b p = Some [node].
Proof. apply compareJSON_fuel_enough. lia. Qed.

(** What a call returns on some stack, it returns on a sufficient one. *)
Lemma compareJSON_fuel_sound fuel a b p r :
  compareJSON_fuel fuel a b p = Some r -> compareJSON a b p = Some r.
Proof.
  intros H.
  destruct (Nat.le_gt_cases fuel (S (depth a + depth b))) as [Hle|Hgt].
  - unfold compareJSON. eapply compareJSON_fuel_mono; eassumption.
  - rewrite <- (compareJSON_fuel_stable fuel) by lia. exact H.
Qed.

(** ** [compareJSON] without the fuel *)

Lemma mismatch_not_equal a b :
  String.eqb (getValueType a) (getValueType b) = false ->
  deepEqual a b = false.
Proof. destruct a, b; try discriminate; reflexivity. Qed.

Lemma compareJSON_primitive a b p :
  bothPrimitive a b = true ->
  compareJSON a b p =
  Some [leaf p (if deepEqual a b then Unchanged else Modified) a b].
Proof. intros Hp. unfold compareJSON. now apply compare_prim. Qed.

Lemma compareJSON_mismatch a b p :
  String.eqb (getValueType a) (getValueType b) = false ->
  compareJSON a b p = Some [leaf p Modified a b].
Proof.
  intros Hk. unfold compareJSON.
  destruct (bothPrimitive a b) eqn:Hp.
  - rewrite compare_prim by assumption.
    now rewrite (mismatch_not_equal a b Hk).
  - now apply compare_mismatch.
Qed.

Lemma compareJSON_arrays xs ys p :
  compareJSON (JArr xs) (JArr ys) p =
  option_map (fun cs => [container p (JArr xs) (JArr ys) cs])
    (collect (arrayItem compareJSON (JArr xs) (JArr ys) p)
       (seq 0 (Nat.max (List.length xs) (List.length ys)))).
Proof.
  unfold compareJSON at 1. rewrite compare_arrays. f_equal.
  apply collect_ext. intros i _. unfold arrayItem. cbn [arrayLength].
  destruct (Nat.leb (List.length xs) i) eqn:E1; [reflexivity|].
  destruct (Nat.leb (List.length ys) i) eqn:E2; [reflexivity|].
  apply Nat.leb_gt in E1, E2. apply compareJSON_fuel_stable.
  pose proof (depth_getIndex xs i E1). pose proof (depth_getIndex ys i E2).
  lia.
Qed.

Lemma compareJSON_objects a b p :
  isPlainObject a = true -> isPlainObject b = true ->
  compareJSON a b p =
  option_map (fun cs => [container p a b cs])
    (collect (objectKey compareJSON a b p) (allKeysOf a b)).
Proof.
  intros Ha Hb. unfold compareJSON at 1.
  rewrite compare_objects by assumption. f_equal.
  apply collect_ext. intros key Hk. unfold objectKey.
  destruct (negb _ && _); [reflexivity|].
  destruct (_ && negb _); [reflexivity|].
  apply compareJSON_fuel_stable. now apply depth_props.
Qed.

(** *** What the body of each loop pushes *)

Lemma arrayItem_cases rec xs ys p i :
  i < Nat.max (List.length xs) (List.length ys) ->
  (List.length xs <= i /\ i < List.length ys /\
   arrayItem rec (JArr xs) (JArr ys) p i =
   Some [mkDiffNode (itemPathOf p i) Added
                    None (Some (nth i ys JUndefined)) None]) \/
  (List.length ys <= i /\ i < List.length xs /\
   arrayItem rec (JArr xs) (JArr ys) p i =
   Some [mkDiffNode (itemPathOf p i) Removed
                    (Some (nth i xs JUndefined)) None None]) \/
  (i < List.length xs /\ i < List.length ys /\
   arrayItem rec (JArr xs) (JArr ys) p i =
   rec (nth i xs JUndefined) (nth i ys JUndefined) (itemPathOf p i)).
Proof.
  intros Hi. unfold arrayItem. cbn [arrayLength getIndex].
  destruct (Nat.leb (List.length xs) i) eqn:E1.
  - apply Nat.leb_le in E1. left. repeat split; [assumption|lia].
  - apply Nat.leb_gt in E1.
    destruct (Nat.leb (List.length ys) i) eqn:E2.
    + apply Nat.leb_le in E2. right; left. repeat split; assumption.
    + apply Nat.leb_gt in E2. right; right. repeat split; assumption.
Qed.

Lemma objectKey_cases rec a b p key :
  isPlainObject a = true -> isPlainObject b = true ->
  In key (allKeysOf a b) ->
  (hasIn key a = false /\ In key (ownKeys b) /\
   objectKey rec a b p key =
   Some [mkDiffNode (keyPathOf p key) Added
                    None (Some (getProp b key)) None]) \/
  (hasIn key b = false /\ In key (ownKeys a) /\
   objectKey rec a b p key =
   Some [mkDiffNode (keyPathOf p key) Removed
                    (Some (getProp a key)) None None]) \/
  (hasIn key a = true /\ hasIn key b = true /\
   objectKey rec a b p key =
   rec (getProp a key) (getProp b key) (keyPathOf p key)).
Proof.
  intros Ha Hb Hk. unfold objectKey.
  rewrite (plainObject_truthy a Ha), (plainObject_truthy b Hb). cbn [andb].
  apply allKeysOf_In in Hk; try assumption.
  destruct (hasIn key a) eqn:E1, (hasIn key b) eqn:E2; cbn [negb andb].
  - right; right. auto.
  - right; left. repeat split. destruct Hk as [Hk|Hk]; [assumption|].
    rewrite (hasIn_own b key Hb Hk) in E2. discriminate.
  - left. repeat split. destruct Hk as [Hk|Hk]; [|assumption].
    rewrite (hasIn_own a key Ha Hk) in E1. discriminate.
  - exfalso. destruct Hk as [Hk|Hk].
    + rewrite (hasIn_own a key Ha Hk) in E1. discriminate.
    + rewrite (hasIn_own b key Hb Hk) in E2. discriminate.
Qed.

(** *** Induction on the calls of [compareJSON] *)

Section Induction.
Variable Q : JsValue -> JsValue -> string -> DiffNode -> Prop.
Hypothesis step : forall a b p t, Call Q a b p t -> Q a b p t.

Lemma compareJSON_fuel_induction fuel :
  forall a b p t, compareJSON_fuel fuel a b p = Some [t] -> Q a b p t.
Proof.
  induction fuel as [|fuel IH]; intros a b p t H; [discriminate|].
  apply step.
  destruct (branch_cases a b) as [Hp|Hp Hk|xs ys -> ->|Ha Hb].
  - rewrite compare_prim in H by assumption. injection H as <-.
    now apply Call_primitive.
  - rewrite compare_mismatch in H by assumption. injection H as <-.
    now apply Call_mismatch.
  - rewrite compare_arrays in H.
    destruct (collect _ _) as [cs|] eqn:Hc; [|discriminate].
    injection H as <-.
    apply collect_inv in Hc;
      [|intros i ds _; apply arrayItem_singleton;
        apply compareJSON_fuel_singleton].
    eapply Call_arrays; try reflexivity.
    eapply Forall2_weaken; [exact Hc|].
    intros i c Hi Hic. cbv beta in Hic. apply in_seq in Hi.
    destruct (arrayItem_cases (compareJSON_fuel fuel) xs ys p i)
      as [[H1 [H2 E]]|[[H1 [H2 E]]|[H1 [H2 E]]]]; [lia| | |];
      rewrite E in Hic.
    + injection Hic as <-. now apply Child_index_added.
    + injection Hic as <-. now apply Child_index_removed.
    + apply Child_index_both; auto.
      eapply compareJSON_fuel_sound; eassumption.
  - rewrite compare_objects in H by assumption.
    destruct (collect _ _) as [cs|] eqn:Hc; [|discriminate].
    injection H as <-.
    apply collect_inv in Hc;
      [|intros key ds _; apply objectKey_singleton;
        apply compareJSON_fuel_singleton].
    eapply Call_objects; try reflexivity; try assumption.
    eapply Forall2_weaken; [exact Hc|].
    intros key c Hkey Hkc. cbv beta in Hkc.
    destruct (objectKey_cases (compareJSON_fuel fuel) a b p key Ha Hb Hkey)
      as [[H1 [H2 E]]|[[H1 [H2 E]]|[H1 [H2 E]]]]; rewrite E in Hkc.
    + injection Hkc as <-. now apply Child_key_added.
    + injection Hkc as <-. now apply Child_key_removed.
    + apply Child_key_both; auto.
      eapply compareJSON_fuel_sound; eassumption.
Qed.

(** What holds of a call whenever it holds of its recursive calls holds of
    every call. *)
Lemma compareJSON_induction :
  forall a b p t, compareJSON a b p = Some [t] -> Q a b p t.
Proof. intros a b p t. apply compareJSON_fuel_induction. Qed.
End Induction.

Lemma ArrayChild_weaken (Q Q' : JsValue -> JsValue -> string -> DiffNode -> Prop)
    xs ys p i c :
  (forall a b q t, Q a b q t -> Q' a b q t) ->
  ArrayChild Q xs ys p i c -> ArrayChild Q' xs ys p i c.
Proof.
  intros H [H1 H2 E|H1 H2 E|H1 H2 E HQ];
    [now apply Child_index_added|now apply Child_index_removed|].
  apply Child_index_both; auto.
Qed.

Lemma ObjectChild_weaken (Q Q' : JsValue -> JsValue -> string -> DiffNode -> Prop)
    a b p key c :
  (forall x y q t, Q x y q t -> Q' x y q t) ->
  ObjectChild Q a b p key c -> ObjectChild Q' a b p key c.
Proof.
  intros H [H1 H2 E|H1 H2 E|H1 H2 E HQ];
    [now apply Child_key_added|now apply Child_key_removed|].
  apply Child_key_both; auto.
Qed.

(** The branch a call took, read off its result. *)
Lemma compareJSON_inv a b p t :
  compareJSON a b p = Some [t] -> Call (fun _ _ _ _ => True) a b p t.
Proof.
  revert a b p t. apply compareJSON_induction.
  intros a b p t [Hp E|Hk E|xs ys cs Ea Eb HF E|cs Ha Hb HF E].
  - now apply Call_primitive.
  - now apply Call_mismatch.
  - eapply Call_arrays; try eassumption.
    eapply Forall2_weaken; [exact HF|]. intros i c _.
    now apply ArrayChild_weaken.
  - eapply Call_objects; try eassumption.
    eapply Forall2_weaken; [exact HF|]. intros key c _.
    now apply ObjectChild_weaken.
Qed.

(** ** The trees [compareJSON] builds *)

Lemma Forall_flat_map_nodes (Q : DiffNode -> Prop) cs :
  Forall (fun c => Forall Q (nodesOf c)) cs ->
  Forall Q (flat_map nodesOf cs).
Proof.
  induction 1 as [|c cs Hc _ IH]; simpl; [constructor|].
  apply Forall_app. split; assumption.
Qed.

Lemma Forall_nodes_root (Q : DiffNode -> Prop) cs :
  Forall (fun c => Forall Q (nodesOf c)) cs -> Forall Q cs.
Proof.
  apply Forall_impl. intros c Hc. destruct c; cbn [nodesOf] in Hc.
  now inversion Hc.
Qed.

(** Every node of a tree but its root is a child of a node of the tree. *)
Lemma nodesOf_parent root :
  forall n, In n (nodesOf root) ->
    n = root \/
    exists parent cs,
      In parent (nodesOf root) /\ children parent = Some cs /\ In n cs.
Proof.
  induction root as [p t o w|p t o w cs IH] using DiffNode_ind; intros n Hn.
  - destruct Hn as [<-|[]]. now left.
  - cbn [nodesOf children] in Hn. destruct Hn as [<-|Hn]; [now left|].
    right. apply in_flat_map in Hn. destruct Hn as [c [Hc Hn]].
    rewrite Forall_forall in IH.
    destruct (IH c Hc n Hn) as [->|[parent [cs' [H1 [H2 H3]]]]].
    + exists (mkDiffNode p t o w (Some cs)), cs.
      split; [now left|]. split; [reflexivity|assumption].
    + exists parent, cs'. split; [|split; assumption].
      cbn [nodesOf children]. right. apply in_flat_map. eauto.
Qed.

Lemma containerType_cases cs :
  containerType cs = Modified \/ containerType cs = Unchanged.
Proof. unfold containerType. destruct (existsb isChanged cs); auto. Qed.

Lemma containerType_unchanged cs :
  containerType cs = Unchanged <-> Forall (fun c => type c = Unchanged) cs.
Proof.
  unfold containerType. rewrite Forall_forall.
  destruct (existsb isChanged cs) eqn:E; split; try discriminate; trivial.
  - intros H. apply existsb_exists in E. destruct E as [c [Hc Hch]].
    unfold isChanged in Hch. now rewrite (H c Hc) in Hch.
  - intros _ c Hc. destruct (type c) eqn:Ht; trivial; exfalso;
      assert (existsb isChanged cs = true)
        by (apply existsb_exists; exists c; split; trivial;
            unfold isChanged; now rewrite Ht);
      congruence.
Qed.

(** The invariant of the trees: the root is modified or unchanged and
    every node has one of the four shapes of [nodeOK]. *)
Lemma compareJSON_invariant :
  forall a b p root,
    compareJSON a b p = Some [root] ->
    rootType root /\ Forall nodeOK (nodesOf root).
Proof.
  apply compareJSON_induction.
  intros a b p t [Hp ->|Hk ->|xs ys cs -> -> HF ->|cs Ha Hb HF ->].
  - split; [unfold rootType; simpl; destruct (deepEqual a b); auto|].
    repeat constructor. unfold nodeOK; simpl.
    destruct (deepEqual a b) eqn:E; exists a, b; rewrite E; auto.
  - split; [now left|]. repeat constructor. unfold nodeOK; simpl.
    exists a, b. now rewrite (mismatch_not_equal a b Hk).
  - split; [apply containerType_cases|].
    cbn [nodesOf container children]. constructor.
    + unfold nodeOK; simpl. exists (JArr xs), (JArr ys). repeat split.
      eapply Forall2_Forall_r; [exact HF|].
      intros i c _ [H1 H2 ->|H1 H2 ->|_ _ _ [[Ht|Ht] _]];
        unfold childOf, AddedFor, RemovedFor; simpl; try (now rewrite Ht);
        repeat split; left; exists i; repeat split; assumption.
    + apply Forall_flat_map_nodes. eapply Forall2_Forall_r; [exact HF|].
      intros i c _ [H1 H2 ->|H1 H2 ->|_ _ _ [_ Hall]]; try assumption;
        repeat constructor; unfold nodeOK; simpl; eauto.
  - split; [apply containerType_cases|].
    cbn [nodesOf container children]. constructor.
    + unfold nodeOK; simpl. exists a, b. repeat split.
      eapply Forall2_Forall_r; [exact HF|].
      intros key c _ [H1 H2 ->|H1 H2 ->|_ _ _ [[Ht|Ht] _]];
        unfold childOf, AddedFor, RemovedFor; simpl; try (now rewrite Ht);
        repeat split; right; exists key; repeat split; assumption.
    + apply Forall_flat_map_nodes. eapply Forall2_Forall_r; [exact HF|].
      intros key c _ [H1 H2 ->|H1 H2 ->|_ _ _ [_ Hall]]; try assumption;
        repeat constructor; unfold nodeOK; simpl; eauto.
Qed.

Lemma nodeOK_fields n :
  nodeOK n ->
  (oldValue n = None <-> type n = Added) /\
  (newValue n = None <-> type n = Removed).
Proof.
  unfold nodeOK. destruct (children n) as [cs|].
  - intros [a [b [-> [-> [Ht _]]]]]. rewrite Ht.
    destruct (containerType_cases cs) as [->| ->]; split; split;
      discriminate.
  - destruct (type n).
    + intros [-> [v ->]]. split; split; try discriminate; reflexivity.
    + intros [-> [v ->]]. split; split; try discriminate; reflexivity.
    + intros [a [b [-> [-> _]]]]. split; split; discriminate.
    + intros [a [b [-> [-> _]]]]. split; split; discriminate.
Qed.

(** ** Statistics *)

Lemma stats_eq a r m u a' r' m' u' :
  a = a' -> r = r' -> m = m' -> u = u' ->
  mkDiffStats a r m u = mkDiffStats a' r' m' u'.
Proof. congruence. Qed.

Lemma addCounts_nil s : addCounts s [] = s.
Proof. destruct s. unfold addCounts, countType; simpl. apply stats_eq; lia. Qed.

Lemma addCounts_cons s d rest :
  addCounts s (d :: rest) = addCounts (bump (type d) s) rest.
Proof.
  unfold addCounts, countType. simpl.
  destruct (type d); simpl; apply stats_eq; lia.
Qed.

Lemma addCounts_app s l1 l2 :
  addCounts s (l1 ++ l2) = addCounts (addCounts s l1) l2.
Proof.
  revert s; induction l1 as [|d l1 IH]; intros s; simpl.
  - now rewrite addCounts_nil.
  - now rewrite !addCounts_cons, IH.
Qed.

Lemma countNode_children p t o n cs s :
  countNode (mkDiffNode p t o n (Some cs)) s = countDiffs cs (bump t s).
Proof. reflexivity. Qed.

Lemma countDiffs_forest cs :
  Forall (fun d => forall s, countNode d s = addCounts s (nodesOf d)) cs ->
  forall s, countDiffs cs s = addCounts s (forestNodes cs).
Proof.
  induction 1 as [|d cs Hd _ IH]; intros s; simpl.
  - now rewrite addCounts_nil.
  - now rewrite Hd, IH, addCounts_app.
Qed.

Lemma countNode_nodes d : forall s, countNode d s = addCounts s (nodesOf d).
Proof.
  induction d as [p t o n|p t o n cs IH] using DiffNode_ind; intros s.
  - cbn [nodesOf children]. rewrite addCounts_cons, addCounts_nil.
    reflexivity.
  - rewrite countNode_children. cbn [nodesOf children].
    rewrite addCounts_cons. cbn [type].
    now apply countDiffs_forest.
Qed.

Lemma countType_total nodes :
  countType Added nodes + countType Removed nodes
  + countType Modified nodes + countType Unchanged nodes
  = List.length nodes.
Proof.
  unfold countType. induction nodes as [|d nodes IH]; simpl; [reflexivity|].
  destruct (type d); simpl; lia.
Qed.

(** C2: [getDiffStats] visits every node of every tree of the forest,
    containers and leaves alike, and each node adds one to the counter of
    its own classification: each counter is the number of nodes of that
    classification, and the four counters add up to the number of nodes. *)
Theorem getDiffStats_counts_every_node :
  forall forest : list DiffNode,
    added (getDiffStats forest) = countType Added (forestNodes forest) /\
    removed (getDiffStats forest) = countType Removed (forestNodes forest) /\
    modified (getDiffStats forest) = countType Modified (forestNodes forest) /\
    unchanged (getDiffStats forest)
      = countType Unchanged (forestNodes forest) /\
    added (getDiffStats forest) + removed (getDiffStats forest)
    + modified (getDiffStats forest) + unchanged (getDiffStats forest)
    = List.length (forestNodes forest).
Proof.
  intros forest. unfold getDiffStats.
  rewrite (countDiffs_forest forest)
    by (apply Forall_forall; intros d _; apply countNode_nodes).
  cbn [addCounts added removed modified unchanged Nat.add].
  repeat split. apply countType_total.
Qed.

(** *** The two-level example *)

(** C1 (as the code behaves): for [{"a":{"b":1}}] against [{"a":{"b":2}}]
    the diff has three nodes, the root object, the object at [a] and the
    leaf at [a.b], all three modified, and [getDiffStats] counts
    [modified = 3]. *)
Theorem stats_nested_modification :
  compareJSON (nestedDoc 1) (nestedDoc 2) "" =
    Some [mkDiffNode "/" Modified (Some (nestedDoc 1)) (Some (nestedDoc 2))
            (Some [mkDiffNode "a" Modified
                     (Some (JObj [("b", JNum 1)])) (Some (JObj [("b", JNum 2)]))
                     (Some [mkDiffNode "a.b" Modified
                              (Some (JNum 1)) (Some (JNum 2)) None])])] /\
  option_map getDiffStats (compareJSON (nestedDoc 1) (nestedDoc 2) "") =
    Some (mkDiffStats 0 0 3 0).
Proof. split; vm_compute; reflexivity. Qed.

(** C1, as the specification words it, fails: the count is not 2. *)
Lemma stats_nested_modification_not_2 :
  ~ (option_map (fun diffs => modified (getDiffStats diffs))
       (compareJSON (nestedDoc 1) (nestedDoc 2) "") = Some 2).
Proof. vm_compute. discriminate. Qed.

(** ** Totality *)

(** C9: for any two values and any path, [compareJSON] returns a sequence
    of exactly one node; it does so on every stack deep enough for the two
    values, with the same result (the embedding is a function: no state is
    read or written). *)
Theorem compareJSON_returns_one_node :
  forall (oldObj newObj : JsValue) (path : string),
    exists node,
      compareJSON oldObj newObj path = Some [node] /\
      forall fuel,
        depth oldObj + depth newObj < fuel ->
        compareJSON_fuel fuel oldObj newObj path = Some [node].
Proof.
  intros a b p. destruct (compareJSON_defined a b p) as [node Hn].
  exists node. split; [exact Hn|].
  intros fuel Hf. rewrite compareJSON_fuel_stable by assumption. exact Hn.
Qed.

(** ** Kind mismatch *)

(** C6: when the two values are of different kinds, [compareJSON] returns
    one modified leaf that carries the whole old value and the whole new
    value and has no children; so [{"a": 1}] against [{"a": [1]}] has one
    child at [a], a modified leaf with old [1], new [[1]] and no children. *)
Theorem type_change_is_atomic :
  (forall (oldObj newObj : JsValue) (path : string),
      getValueType oldObj <> getValueType newObj ->
      compareJSON oldObj newObj path =
      Some [mkDiffNode (orSlash path) Modified
                       (Some oldObj) (Some newObj) None]) /\
  compareJSON (JObj [("a", JNum 1)]) (JObj [("a", JArr [JNum 1])]) "" =
  Some [mkDiffNode "/" Modified
          (Some (JObj [("a", JNum 1)])) (Some (JObj [("a", JArr [JNum 1])]))
          (Some [mkDiffNode "a" Modified
                            (Some (JNum 1)) (Some (JArr [JNum 1])) None])].
Proof.
  split; [|vm_compute; reflexivity].
  intros a b p Hk. apply compareJSON_mismatch.
  apply String.eqb_neq. exact Hk.
Qed.

Lemma type_change_is_atomic_witness :
  getValueType (JNum 1) <> getValueType (JArr [JNum 1]) /\
  compareJSON (JNum 1) (JArr [JNum 1]) "a" =
  Some [mkDiffNode "a" Modified (Some (JNum 1)) (Some (JArr [JNum 1])) None].
Proof.
  assert (H : getValueType (JNum 1) <> getValueType (JArr [JNum 1]))
    by (vm_compute; discriminate).
  split; [exact H|].
  exact (proj1 type_change_is_atomic (JNum 1) (JArr [JNum 1]) "a" H).
Defined.

(** ** Arrays *)

(** C7: two arrays are compared index by index over
    [0 .. max(len(old), len(new))): the container has one child per index;
    an index that only [old] has gives a removed leaf at [path[i]] with the
    old value only, an index that only [new] has gives an added leaf at
    [path[i]] with the new value only, and an index of both gives the node
    of the recursive comparison of the two items at [path[i]].  So
    [[1,2,3]] against [[0,1,2]] gives three modified leaves at [[0]], [[1]]
    and [[2]]. *)
Theorem arrays_compare_by_index :
  (forall (xs ys : list JsValue) (path : string),
      exists cs,
        compareJSON (JArr xs) (JArr ys) path =
        Some [mkDiffNode (orSlash path) (containerType cs)
                         (Some (JArr xs)) (Some (JArr ys)) (Some cs)] /\
        List.length cs = Nat.max (List.length xs) (List.length ys) /\
        forall i, i < Nat.max (List.length xs) (List.length ys) ->
          let itemPath := (path ++ "[" ++ indexToString i ++ "]")%string in
          (List.length ys <= i ->
           nth_error cs i =
           Some (mkDiffNode itemPath Removed
                            (Some (nth i xs JUndefined)) None None)) /\
          (List.length xs <= i ->
           nth_error cs i =
           Some (mkDiffNode itemPath Added
                            None (Some (nth i ys JUndefined)) None)) /\
          (i < List.length xs -> i < List.length ys ->
           exists c, nth_error cs i = Some c /\
                     compareJSON (nth i xs JUndefined) (nth i ys JUndefined)
                                 itemPath = Some [c])) /\
  compareJSON (JArr [JNum 1; JNum 2; JNum 3])
              (JArr [JNum 0; JNum 1; JNum 2]) "" =
  Some [mkDiffNode "/" Modified
          (Some (JArr [JNum 1; JNum 2; JNum 3]))
          (Some (JArr [JNum 0; JNum 1; JNum 2]))
          (Some [mkDiffNode "[0]" Modified (Some (JNum 1)) (Some (JNum 0)) None;
                 mkDiffNode "[1]" Modified (Some (JNum 2)) (Some (JNum 1)) None;
                 mkDiffNode "[2]" Modified (Some (JNum 3)) (Some (JNum 2)) None])].
Proof.
  split; [|vm_compute; reflexivity].
  intros xs ys p.
  destruct (compareJSON_defined (JArr xs) (JArr ys) p) as [root Hroot].
  destruct (compareJSON_inv _ _ _ _ Hroot)
    as [Hp _|Hk _|xs' ys' cs [= <-] [= <-] HF ->|cs Ha _ _ _];
    try discriminate.
  exists cs. split; [exact Hroot|].
  apply Forall2_seq_nth_error in HF. destruct HF as [Hlen Hnth].
  split; [exact Hlen|]. intros i Hi itemPath.
  destruct (Hnth i Hi) as [c [Hc [H1 H2 ->|H1 H2 ->|H1 H2 E _]]];
    repeat split; try (intros; lia); try (intros _; exact Hc).
  intros _ _. exists c. split; [exact Hc|exact E].
Qed.

(** ** Field presence *)

(** C8: in every node of the tree [compareJSON] returns, [oldValue] is
    absent exactly when the node is added and [newValue] is absent exactly
    when it is removed; a modified or unchanged node carries both. *)
Theorem fields_follow_classification :
  forall (oldObj newObj : JsValue) (path : string),
    exists root,
      compareJSON oldObj newObj path = Some [root] /\
      forall n, In n (nodesOf root) ->
        (oldValue n = None <-> type n = Added) /\
        (newValue n = None <-> type n = Removed) /\
        (type n = Modified \/ type n = Unchanged ->
         exists o w, oldValue n = Some o /\ newValue n = Some w).
Proof.
  intros a b p. destruct (compareJSON_defined a b p) as [root Hroot].
  exists root. split; [exact Hroot|].
  apply compareJSON_invariant in Hroot. destruct Hroot as [_ Hall].
  rewrite Forall_forall in Hall. intros n Hn.
  destruct (nodeOK_fields n (Hall n Hn)) as [Ho Hw].
  split; [exact Ho|]. split; [exact Hw|].
  intros Ht. destruct (oldValue n) as [o|], (newValue n) as [w|]; eauto;
    exfalso; destruct Ht as [Ht|Ht]; rewrite Ht in *;
    try (destruct Ho as [Ho _]; specialize (Ho eq_refl); discriminate);
    try (destruct Hw as [Hw _]; specialize (Hw eq_refl); discriminate).
Qed.

(** ** The root, and where added and removed nodes come from *)

(** C10: the one node [compareJSON] returns is modified or unchanged; an
    added (removed) node of the tree is a child of a container node of the
    tree, pushed for an index or a key that only the new (old) value of
    that container has. *)
Theorem root_is_modified_or_unchanged :
  forall (oldObj newObj : JsValue) (path : string),
    exists root,
      compareJSON oldObj newObj path = Some [root] /\
      (type root = Modified \/ type root = Unchanged) /\
      forall n, In n (nodesOf root) ->
        (type n = Added ->
         exists parent cs a b,
           In parent (nodesOf root) /\ children parent = Some cs /\
           In n cs /\ oldValue parent = Some a /\ newValue parent = Some b /\
           AddedFor a b n) /\
        (type n = Removed ->
         exists parent cs a b,
           In parent (nodesOf root) /\ children parent = Some cs /\
           In n cs /\ oldValue parent = Some a /\ newValue parent = Some b /\
           RemovedFor a b n).
Proof.
  intros a b p. destruct (compareJSON_defined a b p) as [root Hroot].
  exists root. split; [exact Hroot|].
  apply compareJSON_invariant in Hroot. destruct Hroot as [Hr Hall].
  split; [exact Hr|]. rewrite Forall_forall in Hall.
  assert (Hchild : forall n, In n (nodesOf root) ->
            type n = Added \/ type n = Removed ->
            exists parent cs a' b',
              In parent (nodesOf root) /\ children parent = Some cs /\
              In n cs /\ oldValue parent = Some a' /\
              newValue parent = Some b' /\ childOf a' b' n).
  { intros n Hn Ht.
    destruct (nodesOf_parent root n Hn) as [->|[parent [cs [H1 [H2 H3]]]]].
    - exfalso. destruct Hr as [Hr|Hr], Ht as [Ht|Ht]; congruence.
    - pose proof (Hall parent H1) as Hok. unfold nodeOK in Hok.
      rewrite H2 in Hok. destruct Hok as [a' [b' [Ho [Hw [_ Hcs]]]]].
      rewrite Forall_forall in Hcs. exists parent, cs, a', b'.
      repeat split; auto. }
  intros n Hn. split; intros Ht.
  - destruct (Hchild n Hn (or_introl Ht))
      as [parent [cs [a' [b' [H1 [H2 [H3 [H4 [H5 H6]]]]]]]]].
    unfold childOf in H6. rewrite Ht in H6. exists parent, cs, a', b'. auto 10.
  - destruct (Hchild n Hn (or_intror Ht))
      as [parent [cs [a' [b' [H1 [H2 [H3 [H4 [H5 H6]]]]]]]]].
    unfold childOf in H6. rewrite Ht in H6. exists parent, cs, a', b'. auto 10.
Qed.

(** ** Classification *)

(** The part of the classification invariant that holds of every tree: a
    leaf with two values is unchanged when they are deep-equal and modified
    otherwise; a container is unchanged when all its children are and
    modified otherwise; the other leaves are added or removed. *)
Lemma classification_invariant :
  forall (oldObj newObj : JsValue) (path : string),
    exists root,
      compareJSON oldObj newObj path = Some [root] /\
      forall n, In n (nodesOf root) ->
        match children n with
        | Some cs =>
            (type n = Unchanged <->
             Forall (fun c => type c = Unchanged) cs) /\
            (type n <> Unchanged -> type n = Modified)
        | None =>
            type n = Added \/ type n = Removed \/
            exists o w,
              oldValue n = Some o /\ newValue n = Some w /\
              (type n = Unchanged <-> deepEqual o w = true) /\
              (type n <> Unchanged -> type n = Modified)
        end.
Proof.
  intros a b p. destruct (compareJSON_defined a b p) as [root Hroot].
  exists root. split; [exact Hroot|].
  apply compareJSON_invariant in Hroot. destruct Hroot as [_ Hall].
  rewrite Forall_forall in Hall. intros n Hn.
  specialize (Hall n Hn). unfold nodeOK in Hall.
  destruct (children n) as [cs|].
  - destruct Hall as [a' [b' [_ [_ [Ht _]]]]]. rewrite Ht. split.
    + apply containerType_unchanged.
    + destruct (containerType_cases cs) as [->| ->]; congruence.
  - destruct (type n) eqn:Ht; auto.
    + right; right. destruct Hall as [o [w [Ho [Hw He]]]].
      exists o, w. repeat split; auto; try discriminate.
      destruct (deepEqual o w); congruence.
    + right; right. destruct Hall as [o [w [Ho [Hw He]]]].
      exists o, w. repeat split; auto; try congruence.
      destruct (deepEqual o w); congruence.
Qed.

(** A key that only the new object has gives an added leaf, unless it is
    a property name of [Object.prototype]: then the old side is read from
    the prototype and the two are compared. *)
Lemma key_of_new_only rec pa pb p key v :
  ownProp pa key = None -> ownProp pb key = Some v ->
  objectKey rec (JObj pa) (JObj pb) p key =
  if includes objectPrototypeKeys key
  then rec (protoProp false key) v (keyPathOf p key)
  else Some [mkDiffNode (keyPathOf p key) Added None (Some v) None].
Proof.
  intros Ha Hb. unfold objectKey. cbn [truthy hasIn getProp andb].
  rewrite Ha, Hb. now destruct (includes objectPrototypeKeys key).
Qed.

(** C3 fails on a key that only one side has when the key is a property
    name of [Object.prototype]: [key in oldObj] is then true of the side
    that lacks the key, and the node is compared against the inherited
    function instead of being added. *)
Theorem inherited_key_not_added :
  ownKeys (JObj []) = [] /\
  ownKeys (JObj [("toString", JNum 1)]) = ["toString"] /\
  hasIn "toString" (JObj []) = true /\
  compareJSON (JObj []) (JObj [("toString", JNum 1)]) "" =
  Some [mkDiffNode "/" Modified
          (Some (JObj [])) (Some (JObj [("toString", JNum 1)]))
          (Some [mkDiffNode "toString" Modified
                            (Some (HFun "toString")) (Some (JNum 1)) None])].
Proof. repeat split; vm_compute; reflexivity. Qed.

(** ** Reflexivity *)

Lemma nanFree_item xs i :
  nanFree (JArr xs) = true -> nanFree (nth i xs JUndefined) = true.
Proof.
  cbn [nanFree]. intros H. rewrite forallb_forall in H.
  destruct (Nat.lt_ge_cases i (List.length xs)) as [Hi|Hi].
  - apply H. now apply nth_In.
  - now rewrite nth_overflow.
Qed.

Lemma nanFree_protoProp self key : nanFree (protoProp self key) = true.
Proof.
  unfold protoProp. destruct (String.eqb key "__proto__");
    [now destruct self|].
  now destruct (includes objectPrototypeKeys key).
Qed.

Lemma nanFree_getProp v key :
  nanFree v = true -> nanFree (getProp v key) = true.
Proof.
  destruct v; try reflexivity; intros H; unfold getProp.
  - destruct (ownProp props key) as [x|] eqn:E;
      [|apply nanFree_protoProp].
    cbn [nanFree] in H. rewrite forallb_forall in H.
    exact (H (key, x) (ownProp_Some _ _ _ E)).
  - apply nanFree_protoProp.
Qed.

Lemma float_eqb_refl x : is_nan x = false -> PrimFloat.eqb x x = true.
Proof.
  unfold is_nan. destruct (PrimFloat.eqb x x); [reflexivity|discriminate].
Qed.

Lemma deepEqual_refl_primitive v :
  nanFree v = true -> bothPrimitive v v = true -> deepEqual v v = true.
Proof.
  destruct v; try discriminate; intros Hn _; try reflexivity.
  - now destruct b.
  - cbn [nanFree] in Hn. apply negb_true_iff in Hn.
    cbn. now rewrite (float_eqb_refl x Hn).
  - cbn. now rewrite String.eqb_refl.
  - cbn. now rewrite String.eqb_refl.
Qed.

Lemma compareJSON_reflexive :
  forall a b p root,
    compareJSON a b p = Some [root] ->
    a = b -> nanFree a = true ->
    Forall (fun n => type n = Unchanged) (nodesOf root).
Proof.
  apply (compareJSON_induction
           (fun a b p root =>
              a = b -> nanFree a = true ->
              Forall (fun n => type n = Unchanged) (nodesOf root))).
  intros a b p t Hcall <- Hn.
  destruct Hcall as [Hp ->|Hk ->|xs ys cs Ea Eb HF ->|cs Ha Hb HF ->].
  - rewrite (deepEqual_refl_primitive a Hn Hp). repeat constructor.
  - now rewrite String.eqb_refl in Hk.
  - subst a. injection Eb as <-.
    assert (Hcs : Forall (fun c => Forall (fun n => type n = Unchanged)
                                          (nodesOf c)) cs).
    { eapply Forall2_Forall_r; [exact HF|].
      intros i c _ [H1 H2 _|H1 H2 _|H1 _ _ HQ]; try lia.
      apply HQ; [reflexivity|now apply nanFree_item]. }
    cbn [nodesOf container children]. constructor.
    + cbn [type]. apply containerType_unchanged.
      now apply Forall_nodes_root.
    + now apply Forall_flat_map_nodes.
  - assert (Hcs : Forall (fun c => Forall (fun n => type n = Unchanged)
                                          (nodesOf c)) cs).
    { eapply Forall2_Forall_r; [exact HF|].
      intros key c Hkey Hc.
      assert (Hown : In key (ownKeys a))
        by (apply allKeysOf_In in Hkey; tauto).
      pose proof (hasIn_own a key Ha Hown) as Hin.
      destruct Hc as [H1 _ _|H1 _ _|_ _ _ HQ]; try congruence.
      apply HQ; [reflexivity|now apply nanFree_getProp]. }
    cbn [nodesOf container children]. constructor.
    + cbn [type]. apply containerType_unchanged.
      now apply Forall_nodes_root.
    + now apply Forall_flat_map_nodes.
Qed.

(** C4 (as the code behaves): comparing a value in which no number is NaN
    with itself gives a tree all of whose nodes are unchanged. *)
Theorem compare_reflexive :
  forall v : JsValue,
    nanFree v = true ->
    exists root,
      compareJSON v v "" = Some [root] /\
      forall n, In n (nodesOf root) -> type n = Unchanged.
Proof.
  intros v Hn. destruct (compareJSON_defined v v "") as [root Hroot].
  exists root. split; [exact Hroot|].
  apply Forall_forall. eapply compareJSON_reflexive; eauto.
Qed.

Lemma compare_reflexive_witness :
  nanFree sampleDoc = true /\
  exists root,
    compareJSON sampleDoc sampleDoc "" = Some [root] /\
    forall n, In n (nodesOf root) -> type n = Unchanged.
Proof.
  assert (H : nanFree sampleDoc = true) by (vm_compute; reflexivity).
  split; [exact H|]. exact (compare_reflexive sampleDoc H).
Defined.

(** C4, for every [Value], fails: the number NaN is a value, [NaN === NaN]
    is false, and NaN compared with itself is a modified leaf. *)
Lemma compare_not_reflexive_at_NaN :
  isValue (JNum nan) = true /\
  compareJSON (JNum nan) (JNum nan) "" =
    Some [mkDiffNode "/" Modified (Some (JNum nan)) (Some (JNum nan)) None] /\
  ~ (exists root,
        compareJSON (JNum nan) (JNum nan) "" = Some [root] /\
        forall n, In n (nodesOf root) -> type n = Unchanged).
Proof.
  assert (E : compareJSON (JNum nan) (JNum nan) "" =
              Some [mkDiffNode "/" Modified
                               (Some (JNum nan)) (Some (JNum nan)) None])
    by (vm_compute; reflexivity).
  split; [reflexivity|]. split; [exact E|].
  intros [root [Hroot Hall]]. rewrite E in Hroot. injection Hroot as <-.
  specialize (Hall _ (or_introl eq_refl)). discriminate Hall.
Qed.

(** ** Symmetry *)

Lemma SFeqb_sym x y : SFeqb x y = SFeqb y x.
Proof.
  unfold SFeqb, SFcompare.
  destruct x as [sx|sx| |sx mx ex], y as [sy|sy| |sy my ey];
    try reflexivity;
    try (destruct sx; reflexivity); try (destruct sy; reflexivity);
    try (destruct sx, sy; reflexivity).
  assert (Hm : Pos.compare_cont Eq my mx
               = CompOpp (Pos.compare_cont Eq mx my))
    by (symmetry; apply (Pos.compare_cont_antisym mx my Eq)).
  rewrite (Z.compare_antisym ex ey), Hm.
  destruct sx, sy; try reflexivity;
    destruct (Z.compare ex ey); cbn [CompOpp]; try reflexivity;
    destruct (Pos.compare_cont Eq mx my); reflexivity.
Qed.

Lemma float_eqb_sym x y : PrimFloat.eqb x y = PrimFloat.eqb y x.
Proof. rewrite !FloatAxioms.eqb_spec. apply SFeqb_sym. Qed.

Lemma bool_eqb_sym x y : Bool.eqb x y = Bool.eqb y x.
Proof. now destruct x, y. Qed.

Lemma bothPrimitive_sym a b : bothPrimitive a b = bothPrimitive b a.
Proof. unfold bothPrimitive. apply andb_comm. Qed.

Lemma deepEqual_sym_primitive a b :
  bothPrimitive a b = true -> deepEqual b a = deepEqual a b.
Proof.
  destruct a, b; try discriminate; intros _; try reflexivity; cbn.
  - now rewrite bool_eqb_sym.
  - now rewrite float_eqb_sym.
  - now rewrite String.eqb_sym.
  - now rewrite String.eqb_sym.
Qed.

Lemma swapType_leaf (c : bool) :
  swapType (if c then Unchanged else Modified)
  = if c then Unchanged else Modified.
Proof. now destruct c. Qed.

Lemma Mirrored_type d d' : Mirrored d d' -> type d' = swapType (type d).
Proof. now destruct 1. Qed.

Lemma Mirrored_isChanged d d' : Mirrored d d' -> isChanged d' = isChanged d.
Proof.
  intros H. unfold isChanged. rewrite (Mirrored_type d d' H).
  now destruct (type d).
Qed.

Lemma existsb_Forall2 {A B : Type} (f : A -> bool) (g : B -> bool) l l' :
  Forall2 (fun x y => g y = f x) l l' -> existsb g l' = existsb f l.
Proof. induction 1 as [|x y l l' H _ IH]; simpl; congruence. Qed.

Lemma existsb_Permutation {A : Type} (f : A -> bool) l l' :
  Permutation l l' -> existsb f l = existsb f l'.
Proof.
  induction 1 as [|x l l' _ IH|x y l|l l' l'' _ IH1 _ IH2]; simpl;
    try congruence.
  destruct (f x), (f y); reflexivity.
Qed.

Lemma containerType_mirrored cs cs' cs'' :
  Forall2 Mirrored cs cs'' -> Permutation cs'' cs' ->
  containerType cs' = swapType (containerType cs).
Proof.
  intros HF HP. unfold containerType.
  rewrite <- (existsb_Permutation isChanged cs'' cs' HP).
  rewrite (existsb_Forall2 isChanged isChanged cs cs'').
  - now destruct (existsb isChanged cs).
  - eapply Forall2_impl; [|exact HF]. apply Mirrored_isChanged.
Qed.

Lemma Mirrored_containers p a b cs cs' cs'' :
  Forall2 Mirrored cs cs'' -> Permutation cs'' cs' ->
  Mirrored (container p a b cs) (container p b a cs').
Proof.
  intros HF HP. unfold container.
  rewrite (containerType_mirrored cs cs' cs'' HF HP).
  eapply Mirrored_container; eassumption.
Qed.

Lemma allKeysOf_Permutation a b :
  isPlainObject a = true -> isPlainObject b = true ->
  Permutation (allKeysOf a b) (allKeysOf b a).
Proof.
  intros Ha Hb. apply NoDup_Permutation; try apply newSet_NoDup.
  intros key. rewrite !allKeysOf_In by assumption. tauto.
Qed.

Lemma compareJSON_mirrored :
  forall a b p t,
    compareJSON a b p = Some [t] ->
    exists t', compareJSON b a p = Some [t'] /\ Mirrored t t'.
Proof.
  apply (compareJSON_induction
           (fun a b p t =>
              exists t', compareJSON b a p = Some [t'] /\ Mirrored t t')).
  intros a b p t [Hp ->|Hk ->|xs ys cs -> -> HF ->|cs Ha Hb HF ->].
  - rewrite compareJSON_primitive by (now rewrite bothPrimitive_sym).
    rewrite (deepEqual_sym_primitive a b Hp).
    eexists. split; [reflexivity|]. unfold leaf.
    rewrite <- (swapType_leaf (deepEqual a b)) at 2. constructor.
  - rewrite compareJSON_mismatch by (now rewrite String.eqb_sym).
    eexists. split; [reflexivity|]. apply (Mirrored_leaf _ Modified).
  - assert (Hrel : exists cs',
               collect (arrayItem compareJSON (JArr ys) (JArr xs) p)
                 (seq 0 (Nat.max (List.length xs) (List.length ys)))
               = Some cs' /\ Forall2 Mirrored cs cs');
      [eapply collect_related; [|exact HF]
      |destruct Hrel as [cs' [Hc' HM]]].
    + intros i c Hi Hc. apply in_seq in Hi.
      destruct (arrayItem_cases compareJSON ys xs p i)
        as [[G1 [G2 F]]|[[G1 [G2 F]]|[G1 [G2 F]]]]; [lia| | |];
        rewrite F; destruct Hc as [H1 H2 ->|H1 H2 ->|H1 H2 _ HQ]; try lia.
      * eexists. split; [reflexivity|]. apply (Mirrored_leaf _ Removed).
      * eexists. split; [reflexivity|]. apply (Mirrored_leaf _ Added).
      * exact HQ.
    + rewrite compareJSON_arrays, Nat.max_comm, Hc'. eexists.
      split; [reflexivity|].
      eapply Mirrored_containers; [exact HM|apply Permutation_refl].
  - assert (Hrel : exists cs'',
               collect (objectKey compareJSON b a p) (allKeysOf a b)
               = Some cs'' /\ Forall2 Mirrored cs cs'');
      [eapply collect_related; [|exact HF]
      |destruct Hrel as [cs'' [Hc'' HM]]].
    + intros key c Hkey Hc.
      assert (Hkey' : In key (allKeysOf b a))
        by (rewrite allKeysOf_In in Hkey |- * by assumption; tauto).
      destruct (objectKey_cases compareJSON b a p key Hb Ha Hkey')
        as [[G1 [G2 F]]|[[G1 [G2 F]]|[G1 [G2 F]]]];
        rewrite F; destruct Hc as [H1 H2 ->|H1 H2 ->|H1 H2 _ HQ];
        try assumption; try congruence;
        try (rewrite (hasIn_own _ _ Ha) in *; congruence);
        try (rewrite (hasIn_own _ _ Hb) in *; congruence).
      * eexists. split; [reflexivity|]. apply (Mirrored_leaf _ Removed).
      * eexists. split; [reflexivity|]. apply (Mirrored_leaf _ Added).
    + destruct (collect_Permutation (objectKey compareJSON b a p)
                  (allKeysOf a b) (allKeysOf b a)
                  (allKeysOf_Permutation a b Ha Hb) cs'' Hc'')
        as [cs' [Hc' HP]].
      rewrite compareJSON_objects, Hc' by assumption. eexists.
      split; [reflexivity|].
      eapply Mirrored_containers; eassumption.
Qed.

Lemma Mirrored_entries d :
  forall d', Mirrored d d' ->
    Permutation (entries d') (map swapEntry (entries d)).
Proof.
  induction d as [p t o w|p t o w cs IH] using DiffNode_ind;
    intros d' H; inversion H; subst; unfold entries.
  - apply Permutation_refl.
  - cbn [nodesOf children map]. apply perm_skip.
    transitivity (map entryOf (flat_map nodesOf cs'')).
    + apply Permutation_map. apply Permutation_flat_map.
      now apply Permutation_sym.
    + clear H H7. revert IH. induction H6 as [|c c' cs cs'' Hc _ IHF];
        intros IH; [apply Permutation_refl|].
      inversion IH; subst. cbn [flat_map]. rewrite !map_app.
      apply Permutation_app; [now apply H1|now apply IHF].
Qed.

(** C5: [compareJSON(a, b)] and [compareJSON(b, a)] give mirrored trees:
    node for node (children taken in some order) the path is the same,
    added and removed are exchanged, modified and unchanged are kept, and
    the old and new values are exchanged; so the two trees have the same
    paths, and the entries (path, classification, old, new) of one are the
    swapped entries of the other. *)
Theorem compare_symmetric :
  forall a b : JsValue,
    exists t t',
      compareJSON a b "" = Some [t] /\
      compareJSON b a "" = Some [t'] /\
      Mirrored t t' /\
      Permutation (map path (nodesOf t')) (map path (nodesOf t)) /\
      Permutation (entries t') (map swapEntry (entries t)).
Proof.
  intros a b. destruct (compareJSON_defined a b "") as [t Ht].
  destruct (compareJSON_mirrored a b "" t Ht) as [t' [Ht' HM]].
  exists t, t'. split; [exact Ht|]. split; [exact Ht'|].
  split; [exact HM|].
  pose proof (Mirrored_entries t t' HM) as HE.
  split; [|exact HE].
  apply (Permutation_map (fun e : Entry => fst (fst (fst e)))) in HE.
  unfold entries in HE. rewrite !map_map in HE.
  rewrite (map_ext (fun n => fst (fst (fst (swapEntry (entryOf n))))) path)
    in HE by reflexivity.
  exact HE.
Qed.

(** * Further properties *)

(** ** [deepEqual] *)

Lemma deepEqual_JArr xs ys :
  deepEqual (JArr xs) (JArr ys) =
  Nat.eqb (List.length xs) (List.length ys) && equalItems (JArr ys) xs 0.
Proof.
  change (deepEqual (JArr xs) (JArr ys)) with
    (if negb (Nat.eqb (List.length xs) (List.length ys)) then false
     else equalItems (JArr ys) xs 0).
  now destruct (Nat.eqb (List.length xs) (List.length ys)).
Qed.

Lemma deepEqual_JObj pa pb :
  deepEqual (JObj pa) (JObj pb) =
  Nat.eqb (List.length pa) (List.length pb)
  && equalProps (JObj pb) (map fst pb) pa.
Proof.
  change (deepEqual (JObj pa) (JObj pb)) with
    (if negb (Nat.eqb (List.length pa) (List.length (map fst pb))) then false
     else equalProps (JObj pb) (map fst pb) pa).
  rewrite length_map.
  now destruct (Nat.eqb (List.length pa) (List.length pb)).
Qed.

Lemma equalItems_spec ys l : forall i,
  equalItems (JArr ys) l i = true <->
  forall j, j < List.length l ->
    deepEqual (nth j l JUndefined) (nth (i + j) ys JUndefined) = true.
Proof.
  induction l as [|x l IH]; intros i; cbn [equalItems List.length];
    fold (equalItems (JArr ys)).
  - split; [intros _ j Hj; lia|reflexivity].
  - cbn [getIndex].
    destruct (deepEqual x (nth i ys JUndefined)) eqn:E; cbn [negb].
    + rewrite IH. split.
      * intros H [|j] Hj; cbn [nth]; [now rewrite Nat.add_0_r|].
        rewrite Nat.add_succ_r. apply H. lia.
      * intros H j Hj. specialize (H (S j)). cbn [nth] in H.
        rewrite Nat.add_succ_r in H. apply H. lia.
    + split; [discriminate|]. intros H. specialize (H 0).
      cbn [nth] in H. rewrite Nat.add_0_r, E in H. apply H. lia.
Qed.

Lemma equalProps_spec b keysB l :
  equalProps b keysB l = true <->
  forall key x, In (key, x) l ->
    In key keysB /\ deepEqual x (getProp b key) = true.
Proof.
  induction l as [|[k y] l IH]; cbn [equalProps];
    fold (equalProps b keysB).
  - split; [intros _ key x []|reflexivity].
  - destruct (includes keysB k) eqn:E1; cbn [negb].
    + destruct (deepEqual y (getProp b k)) eqn:E2; cbn [negb].
      * rewrite IH. split.
        -- intros H key x [[= <- <-]|Hin]; [|now apply H].
           split; [now apply includes_In|assumption].
        -- intros H key x Hin. apply H. now right.
      * split; [discriminate|]. intros H.
        destruct (H k y (or_introl eq_refl)) as [_ H']. congruence.
    + split; [discriminate|]. intros H.
      destruct (H k y (or_introl eq_refl)) as [H' _].
      apply includes_In in H'. congruence.
Qed.

(** Two arrays are deep-equal when they have the same length and equal
    items index by index. *)
Lemma deepEqual_arrays xs ys :
  deepEqual (JArr xs) (JArr ys) = true <->
  List.length xs = List.length ys /\
  forall i, i < List.length xs ->
    deepEqual (nth i xs JUndefined) (nth i ys JUndefined) = true.
Proof.
  rewrite deepEqual_JArr, andb_true_iff, Nat.eqb_eq, equalItems_spec.
  reflexivity.
Qed.

(** Two objects are deep-equal when they have as many keys and every
    property of the first is a key of the second with an equal value. *)
Lemma deepEqual_objects pa pb :
  deepEqual (JObj pa) (JObj pb) = true <->
  List.length pa = List.length pb /\
  forall key x, In (key, x) pa ->
    In key (map fst pb) /\ deepEqual x (getProp (JObj pb) key) = true.
Proof.
  rewrite deepEqual_JObj, andb_true_iff, Nat.eqb_eq, equalProps_spec.
  reflexivity.
Qed.

Lemma distinct_NoDup keys : distinct keys = true <-> NoDup keys.
Proof.
  induction keys as [|k keys IH]; cbn [distinct].
  - split; [constructor|reflexivity].
  - rewrite andb_true_iff, negb_true_iff, IH.
    fold (includes keys k). rewrite includes_false. split.
    + intros [H1 H2]. now constructor.
    + intros H. inversion H. tauto.
Qed.

Lemma ownProp_distinct props key x :
  NoDup (map fst props) -> In (key, x) props -> ownProp props key = Some x.
Proof.
  induction props as [|[k y] props IH]; cbn [map fst ownProp];
    intros Hd Hin; [destruct Hin|].
  inversion Hd as [|? ? Hk Hd']; subst.
  destruct Hin as [[= -> ->]|Hin].
  - now rewrite String.eqb_refl.
  - destruct (String.eqb k key) eqn:E; [|now apply IH].
    apply String.eqb_eq in E. subst k. exfalso. apply Hk.
    apply in_map_iff. now exists (key, x).
Qed.

Lemma isValue_JObj props :
  isValue (JObj props) = true <->
  NoDup (map fst props) /\ forall key x, In (key, x) props -> isValue x = true.
Proof.
  cbn [isValue]. rewrite andb_true_iff, distinct_NoDup, forallb_forall.
  split; intros [H1 H2]; split; trivial.
  - intros key x Hin. exact (H2 (key, x) Hin).
  - intros [key x] Hin. exact (H2 key x Hin).
Qed.

Lemma isValue_JArr xs :
  isValue (JArr xs) = true <-> forall x, In x xs -> isValue x = true.
Proof. cbn [isValue]. apply forallb_forall. Qed.

Lemma nanFree_JObj props :
  nanFree (JObj props) = true <->
  forall key x, In (key, x) props -> nanFree x = true.
Proof.
  cbn [nanFree]. rewrite forallb_forall. split.
  - intros H key x Hin. exact (H (key, x) Hin).
  - intros H [key x] Hin. exact (H key x Hin).
Qed.

Lemma nanFree_JArr xs :
  nanFree (JArr xs) = true <-> forall x, In x xs -> nanFree x = true.
Proof. cbn [nanFree]. apply forallb_forall. Qed.

Lemma deepEqual_refl v :
  isValue v = true -> nanFree v = true -> deepEqual v v = true.
Proof.
  induction v as [| |b|x|s|xs IH|props IH|name|] using JsValue_ind;
    intros Hv Hn; try discriminate Hv;
    try (apply deepEqual_refl_primitive; [assumption|reflexivity]).
  - apply deepEqual_arrays. split; [reflexivity|]. intros i Hi.
    rewrite Forall_forall in IH. rewrite isValue_JArr in Hv.
    rewrite nanFree_JArr in Hn.
    pose proof (nth_In xs JUndefined Hi) as Hin. auto.
  - apply deepEqual_objects. split; [reflexivity|]. intros key x Hin.
    rewrite Forall_forall in IH. apply isValue_JObj in Hv.
    destruct Hv as [Hd Hv]. rewrite nanFree_JObj in Hn.
    split; [apply in_map_iff; now exists (key, x)|].
    cbn [getProp]. rewrite (ownProp_distinct props key x Hd Hin).
    apply (IH (key, x) Hin); eauto.
Qed.

(** X1: a value without NaN is deep-equal to itself, also to a separate
    copy of itself (the comparison of the contents, not the reference
    test, decides). *)
Theorem deepEqual_reflexive :
  forall v : JsValue,
    isValue v = true -> nanFree v = true -> deepEqual v v = true.
Proof. exact deepEqual_refl. Qed.

Lemma deepEqual_reflexive_witness :
  isValue sampleDoc = true /\ nanFree sampleDoc = true /\
  deepEqual sampleDoc sampleDoc = true.
Proof.
  assert (H1 : isValue sampleDoc = true) by (vm_compute; reflexivity).
  assert (H2 : nanFree sampleDoc = true) by (vm_compute; reflexivity).
  split; [exact H1|]. split; [exact H2|].
  exact (deepEqual_reflexive sampleDoc H1 H2).
Defined.

Lemma isValue_kind v :
  isValue v = true ->
  bothPrimitive v v = true \/ (exists xs, v = JArr xs) \/
  (exists props, v = JObj props).
Proof. destruct v; try discriminate; intros _; eauto. Qed.

Lemma deepEqual_JArr_inv xs b :
  isValue b = true -> deepEqual (JArr xs) b = true -> exists ys, b = JArr ys.
Proof. destruct b; try discriminate; eauto. Qed.

Lemma deepEqual_JObj_inv pa b :
  isValue b = true -> deepEqual (JObj pa) b = true ->
  exists pb, b = JObj pb.
Proof. destruct b; try discriminate; eauto. Qed.

Lemma deepEqual_primitive_kind a b :
  bothPrimitive a a = true -> deepEqual a b = true ->
  bothPrimitive a b = true.
Proof. destruct a; try discriminate; destruct b; try discriminate; auto. Qed.

Lemma keys_in (props : list (string * JsValue)) key x :
  In (key, x) props -> In key (map fst props).
Proof. intros H. apply in_map_iff. now exists (key, x). Qed.

Lemma deepEqual_sym_true a :
  forall b,
    isValue a = true -> isValue b = true ->
    deepEqual a b = true -> deepEqual b a = true.
Proof.
  induction a as [| |c|x|s|xs IH|pa IH|name|] using JsValue_ind;
    intros b Ha Hb H; try discriminate Ha;
    try (rewrite deepEqual_sym_primitive; [exact H|];
         apply deepEqual_primitive_kind; [reflexivity|exact H]).
  - destruct (deepEqual_JArr_inv xs b Hb H) as [ys ->].
    apply deepEqual_arrays in H. destruct H as [Hlen Hitems].
    apply deepEqual_arrays. split; [now symmetry|]. intros i Hi.
    rewrite Forall_forall in IH. rewrite isValue_JArr in Ha, Hb.
    rewrite <- Hlen in Hi.
    apply IH; auto using nth_In.
    apply Hb, nth_In. now rewrite <- Hlen.
  - destruct (deepEqual_JObj_inv pa b Hb H) as [pb ->].
    apply deepEqual_objects in H. destruct H as [Hlen Hprops].
    apply isValue_JObj in Ha, Hb.
    destruct Ha as [Hda Hva], Hb as [Hdb Hvb].
    apply deepEqual_objects. split; [now symmetry|]. intros key y Hin.
    assert (Hincl : incl (map fst pb) (map fst pa)).
    { apply NoDup_length_incl; [assumption|rewrite !length_map; lia|].
      intros k Hk. apply in_map_iff in Hk. destruct Hk as [[k' x] [<- Hk]].
      now apply (Hprops k' x). }
    pose proof (Hincl key (keys_in pb key y Hin)) as Hkey.
    split; [assumption|].
    apply in_map_iff in Hkey. destruct Hkey as [[k x] [Hk Hx]].
    cbn [fst] in Hk. subst k.
    destruct (Hprops key x Hx) as [_ Heq].
    cbn [getProp] in Heq |- *.
    rewrite (ownProp_distinct pb key y Hdb Hin) in Heq.
    rewrite (ownProp_distinct pa key x Hda Hx).
    rewrite Forall_forall in IH.
    apply (IH (key, x) Hx); eauto.
Qed.

(** X2: on values, [deepEqual] is symmetric. *)
Theorem deepEqual_symmetric :
  forall a b : JsValue,
    isValue a = true -> isValue b = true ->
    deepEqual a b = deepEqual b a.
Proof.
  intros a b Ha Hb.
  destruct (deepEqual a b) eqn:E1, (deepEqual b a) eqn:E2; trivial.
  - rewrite (deepEqual_sym_true a b Ha Hb E1) in E2. discriminate.
  - rewrite (deepEqual_sym_true b a Hb Ha E2) in E1. discriminate.
Qed.

Lemma deepEqual_symmetric_witness :
  isValue docBA = true /\ isValue docAB = true /\
  deepEqual docBA docAB = deepEqual docAB docBA.
Proof.
  assert (H1 : isValue docBA = true) by (vm_compute; reflexivity).
  assert (H2 : isValue docAB = true) by (vm_compute; reflexivity).
  split; [exact H1|]. split; [exact H2|].
  exact (deepEqual_symmetric docBA docAB H1 H2).
Defined.

Lemma Permutation_keys (pa pb : list (string * JsValue)) :
  Permutation pa pb -> Permutation (map fst pa) (map fst pb).
Proof. apply Permutation_map. Qed.

Lemma getProp_Permutation pb pb' key :
  NoDup (map fst pb) -> Permutation pb pb' ->
  getProp (JObj pb) key = getProp (JObj pb') key.
Proof.
  intros Hd HP. cbn [getProp].
  assert (Hd' : NoDup (map fst pb'))
    by (eapply Permutation_NoDup; [apply Permutation_keys|]; eassumption).
  destruct (ownProp pb key) as [x|] eqn:E.
  - apply ownProp_Some in E.
    now rewrite (ownProp_distinct pb' key x Hd'
                   (Permutation_in _ HP E)).
  - destruct (ownProp pb' key) as [y|] eqn:E'; [|reflexivity].
    apply ownProp_Some in E'.
    rewrite (ownProp_distinct pb key y Hd
               (Permutation_in _ (Permutation_sym HP) E')) in E.
    discriminate.
Qed.

Lemma equalProps_Permutation pb pb' l :
  NoDup (map fst pb) -> Permutation pb pb' ->
  equalProps (JObj pb) (map fst pb) l = equalProps (JObj pb') (map fst pb') l.
Proof.
  intros Hd HP. induction l as [|[key x] l IH]; [reflexivity|].
  cbn [equalProps]. fold (equalProps (JObj pb) (map fst pb)).
  fold (equalProps (JObj pb') (map fst pb')).
  rewrite IH, (getProp_Permutation pb pb' key Hd HP).
  replace (includes (map fst pb') key) with (includes (map fst pb) key);
    [reflexivity|].
  destruct (includes (map fst pb) key) eqn:E1;
    destruct (includes (map fst pb') key) eqn:E2; trivial.
  - apply includes_In in E1. apply includes_false in E2. exfalso.
    apply E2. eapply Permutation_in; [apply Permutation_keys|]; eassumption.
  - apply includes_In in E2. apply includes_false in E1. exfalso.
    apply E1. eapply Permutation_in;
      [apply Permutation_keys, Permutation_sym|]; eassumption.
Qed.

(** X3: the order of the keys of an object does not count: listing the
    properties of the second operand in another order does not change the
    result, and an object without NaN is deep-equal to any reordering of
    itself. *)
Theorem deepEqual_ignores_key_order :
  forall (pb pb' : list (string * JsValue)),
    isValue (JObj pb) = true -> Permutation pb pb' ->
    (forall a, deepEqual a (JObj pb) = deepEqual a (JObj pb')) /\
    (nanFree (JObj pb) = true -> deepEqual (JObj pb) (JObj pb') = true).
Proof.
  intros pb pb' Hv HP.
  assert (Hd : NoDup (map fst pb)) by (now apply isValue_JObj in Hv).
  assert (Hswap : forall a, deepEqual a (JObj pb) = deepEqual a (JObj pb')).
  { intros a. destruct a; try reflexivity.
    - rewrite !deepEqual_JObj, (Permutation_length HP).
      now rewrite (equalProps_Permutation pb pb' _ Hd HP).
    - cbn. now rewrite !length_map, (Permutation_length HP). }
  split; [exact Hswap|].
  intros Hn. rewrite <- Hswap. now apply deepEqual_refl.
Qed.

Lemma deepEqual_ignores_key_order_witness :
  isValue (JObj [("b", JNum 2); ("a", JNull)]) = true /\
  Permutation [("b", JNum 2); ("a", JNull)] [("a", JNull); ("b", JNum 2)] /\
  (forall a, deepEqual a (JObj [("b", JNum 2); ("a", JNull)])
             = deepEqual a (JObj [("a", JNull); ("b", JNum 2)])) /\
  (nanFree (JObj [("b", JNum 2); ("a", JNull)]) = true ->
   deepEqual (JObj [("b", JNum 2); ("a", JNull)])
             (JObj [("a", JNull); ("b", JNum 2)]) = true).
Proof.
  assert (H1 : isValue (JObj [("b", JNum 2); ("a", JNull)]) = true)
    by (vm_compute; reflexivity).
  assert (H2 : Permutation [("b", JNum 2); ("a", JNull)]
                           [("a", JNull); ("b", JNum 2)])
    by apply perm_swap.
  split; [exact H1|]. split; [exact H2|].
  exact (deepEqual_ignores_key_order _ _ H1 H2).
Defined.

(** X4: deep-equal values are of the same kind; in particular only [null]
    is deep-equal to [null] ([undefined] is not, though
    [undefined == null]). *)
Theorem deepEqual_same_kind :
  forall a b : JsValue,
    deepEqual a b = true ->
    getValueType a = getValueType b /\
    (b = JNull -> a = JNull) /\ (a = JNull -> b = JNull).
Proof.
  intros a b H. split.
  - apply String.eqb_eq.
    destruct (String.eqb (getValueType a) (getValueType b)) eqn:E; trivial.
    rewrite (mismatch_not_equal a b E) in H. discriminate.
  - split; intros ->; destruct a + destruct b; try discriminate H;
      reflexivity.
Qed.

Lemma deepEqual_same_kind_witness :
  deepEqual docBA docAB = true /\
  getValueType docBA = getValueType docAB /\
  (docAB = JNull -> docBA = JNull) /\ (docBA = JNull -> docAB = JNull).
Proof.
  assert (H : deepEqual docBA docAB = true) by (vm_compute; reflexivity).
  split; [exact H|]. exact (deepEqual_same_kind docBA docAB H).
Defined.

(** ** [deepEqual] and [compareJSON] *)

Lemma isValue_item xs i :
  isValue (JArr xs) = true -> i < List.length xs ->
  isValue (nth i xs JUndefined) = true.
Proof. rewrite isValue_JArr. intros H Hi. now apply H, nth_In. Qed.

Lemma getProp_own props key x :
  NoDup (map fst props) -> In (key, x) props ->
  getProp (JObj props) key = x.
Proof.
  intros Hd Hin. cbn [getProp].
  now rewrite (ownProp_distinct props key x Hd Hin).
Qed.

Lemma own_key_value (props : list (string * JsValue)) key :
  In key (map fst props) -> exists x, In (key, x) props.
Proof.
  intros H. apply in_map_iff in H. destruct H as [[k x] [<- H]]. eauto.
Qed.

Lemma compareJSON_deepEqual :
  forall a b p t,
    compareJSON a b p = Some [t] ->
    isValue a = true -> isValue b = true -> deepEqual a b = true ->
    Forall (fun n => type n = Unchanged) (nodesOf t).
Proof.
  apply (compareJSON_induction
           (fun a b p t =>
              isValue a = true -> isValue b = true ->
              deepEqual a b = true ->
              Forall (fun n => type n = Unchanged) (nodesOf t))).
  intros a b p t [Hp ->|Hk ->|xs ys cs -> -> HF ->|cs Ha Hb HF ->] Hva Hvb He.
  - rewrite He. repeat constructor.
  - rewrite (mismatch_not_equal a b Hk) in He. discriminate.
  - apply deepEqual_arrays in He. destruct He as [Hlen Hitems].
    assert (Hcs : Forall (fun c => Forall (fun n => type n = Unchanged)
                                          (nodesOf c)) cs).
    { eapply Forall2_Forall_r; [exact HF|].
      intros i c _ [H1 H2 _|H1 H2 _|H1 H2 _ HQ]; try lia.
      apply HQ; auto using isValue_item. }
    cbn [nodesOf container children]. constructor.
    + cbn [type]. apply containerType_unchanged.
      now apply Forall_nodes_root.
    + now apply Forall_flat_map_nodes.
  - destruct a as [| | | | | |pa| |]; try discriminate Ha;
      try discriminate Hva.
    destruct b as [| | | | | |pb| |]; try discriminate Hb;
      try discriminate Hvb.
    apply deepEqual_objects in He. destruct He as [Hlen Hprops].
    apply isValue_JObj in Hva, Hvb.
    destruct Hva as [Hda Hva], Hvb as [Hdb Hvb].
    assert (Hincl : incl (map fst pb) (map fst pa)).
    { apply NoDup_length_incl; [assumption|rewrite !length_map; lia|].
      intros k Hk. destruct (own_key_value pa k Hk) as [x Hx].
      now apply (Hprops k x). }
    assert (Hcs : Forall (fun c => Forall (fun n => type n = Unchanged)
                                          (nodesOf c)) cs).
    { eapply Forall2_Forall_r; [exact HF|].
      intros key c Hkey Hc.
      assert (Hka : In key (map fst pa)).
      { apply allKeysOf_In in Hkey; try reflexivity.
        destruct Hkey as [Hkey|Hkey]; [exact Hkey|now apply Hincl]. }
      destruct (own_key_value pa key Hka) as [x Hx].
      destruct (Hprops key x Hx) as [Hkb Heq].
      destruct (own_key_value pb key Hkb) as [y Hy].
      destruct Hc as [H1 _ _|H1 _ _|_ _ _ HQ].
      - rewrite (hasIn_own (JObj pa) key eq_refl Hka) in H1. discriminate.
      - rewrite (hasIn_own (JObj pb) key eq_refl Hkb) in H1. discriminate.
      - rewrite (getProp_own pa key x Hda Hx) in HQ.
        rewrite (getProp_own pb key y Hdb Hy) in HQ, Heq.
        apply HQ; eauto. }
    cbn [nodesOf container children]. constructor.
    + cbn [type]. apply containerType_unchanged.
      now apply Forall_nodes_root.
    + now apply Forall_flat_map_nodes.
Qed.

(** X5: two values that [deepEqual] accepts are compared to a tree all of
    whose nodes are unchanged. *)
Theorem deep_equal_values_compare_unchanged :
  forall (a b : JsValue) (path : string),
    isValue a = true -> isValue b = true -> deepEqual a b = true ->
    exists root,
      compareJSON a b path = Some [root] /\
      forall n, In n (nodesOf root) -> type n = Unchanged.
Proof.
  intros a b p Ha Hb He. destruct (compareJSON_defined a b p) as [root Hr].
  exists root. split; [exact Hr|].
  apply Forall_forall. eapply compareJSON_deepEqual; eassumption.
Qed.

Lemma deep_equal_values_compare_unchanged_witness :
  isValue docBA = true /\ isValue docAB = true /\
  deepEqual docBA docAB = true /\
  exists root,
    compareJSON docBA docAB "" = Some [root] /\
    forall n, In n (nodesOf root) -> type n = Unchanged.
Proof.
  assert (H1 : isValue docBA = true) by (vm_compute; reflexivity).
  assert (H2 : isValue docAB = true) by (vm_compute; reflexivity).
  assert (H3 : deepEqual docBA docAB = true) by (vm_compute; reflexivity).
  split; [exact H1|]. split; [exact H2|]. split; [exact H3|].
  exact (deep_equal_values_compare_unchanged docBA docAB "" H1 H2 H3).
Defined.

(** ** Change travels up to the root *)

Lemma nodesOf_self n : In n (nodesOf n).
Proof. destruct n. now left. Qed.

Lemma nodesOf_trans root :
  forall n, In n (nodesOf root) -> incl (nodesOf n) (nodesOf root).
Proof.
  induction root as [p t o w|p t o w cs IH] using DiffNode_ind; intros n Hn.
  - destruct Hn as [<-|[]]. apply incl_refl.
  - cbn [nodesOf children] in Hn. destruct Hn as [<-|Hn]; [apply incl_refl|].
    apply in_flat_map in Hn. destruct Hn as [c [Hc Hn]].
    rewrite Forall_forall in IH. intros m Hm.
    cbn [nodesOf children]. right. apply in_flat_map. exists c.
    split; [assumption|]. exact (IH c Hc n Hn m Hm).
Qed.

Lemma unchanged_subtree n :
  Forall nodeOK (nodesOf n) -> type n = Unchanged ->
  Forall (fun m => type m = Unchanged) (nodesOf n).
Proof.
  induction n as [p t o w|p t o w cs IH] using DiffNode_ind;
    intros Hok Ht.
  - repeat constructor. exact Ht.
  - cbn [nodesOf children] in Hok |- *. inversion Hok as [|? ? Hn Hrest].
    subst. constructor; [exact Ht|].
    unfold nodeOK in Hn. cbn [children type] in Hn.
    destruct Hn as [a [b [_ [_ [Hct _]]]]]. cbn [type] in Ht.
    rewrite Hct in Ht. apply containerType_unchanged in Ht.
    apply Forall_flat_map_nodes. apply Forall_forall. intros c Hc.
    rewrite Forall_forall in IH, Ht, Hrest.
    apply (IH c Hc); [|now apply Ht].
    apply Forall_forall. intros m Hm. apply Hrest.
    apply in_flat_map. eauto.
Qed.

Lemma getDiffStats_tally forest :
  getDiffStats forest = addCounts (mkDiffStats 0 0 0 0) (forestNodes forest).
Proof.
  unfold getDiffStats. apply countDiffs_forest.
  apply Forall_forall. intros d _. apply countNode_nodes.
Qed.

Lemma countType_zero t nodes :
  countType t nodes = 0 <-> forall n, In n nodes -> type n <> t.
Proof.
  unfold countType. induction nodes as [|d nodes IH]; cbn [filter].
  - split; [intros _ n []|reflexivity].
  - destruct (sameType (type d) t) eqn:E.
    + split; [discriminate|]. intros H. exfalso.
      apply (H d (or_introl eq_refl)).
      destruct (type d), t; try discriminate E; reflexivity.
    + rewrite IH. split.
      * intros H n [<-|Hn]; [|now apply H].
        intros Heq. rewrite Heq in E. now destruct t.
      * intros H n Hn. apply H. now right.
Qed.

(** X6: in the tree that [compareJSON] returns, all the nodes below an
    unchanged node are unchanged (a change anywhere makes every container
    above it modified); so the root is unchanged exactly when
    [getDiffStats] counts no added, no removed and no modified node. *)
Theorem change_reaches_the_root :
  forall (oldObj newObj : JsValue) (path : string),
    exists root,
      compareJSON oldObj newObj path = Some [root] /\
      (forall n, In n (nodesOf root) -> type n = Unchanged ->
         forall m, In m (nodesOf n) -> type m = Unchanged) /\
      (type root = Unchanged <->
       added (getDiffStats [root]) = 0 /\
       removed (getDiffStats [root]) = 0 /\
       modified (getDiffStats [root]) = 0).
Proof.
  intros a b p. destruct (compareJSON_defined a b p) as [root Hroot].
  exists root. split; [exact Hroot|].
  apply compareJSON_invariant in Hroot. destruct Hroot as [Hr Hall].
  assert (Hsub : forall n, In n (nodesOf root) -> type n = Unchanged ->
                   forall m, In m (nodesOf n) -> type m = Unchanged).
  { intros n Hn Ht. apply Forall_forall. apply unchanged_subtree; [|exact Ht].
    apply Forall_forall. intros m Hm. rewrite Forall_forall in Hall.
    apply Hall. exact (nodesOf_trans root n Hn m Hm). }
  split; [exact Hsub|].
  rewrite getDiffStats_tally. unfold forestNodes. cbn [flat_map].
  rewrite app_nil_r.
  cbn [addCounts added removed modified Nat.add].
  rewrite !countType_zero. split.
  - intros Ht. repeat split; intros n Hn Hc;
      rewrite (Hsub root (nodesOf_self root) Ht n Hn) in Hc; discriminate.
  - intros [H1 [H2 H3]]. pose proof (nodesOf_self root) as Hs.
    specialize (H1 root Hs). specialize (H2 root Hs).
    specialize (H3 root Hs). destruct (type root); congruence.
Qed.

(** ** The fields of the nodes *)

Lemma bothPrimitive_not_containers a b :
  bothPrimitive a b = true -> bothContainers a b = false.
Proof. destruct a; try discriminate; destruct b; try discriminate; auto. Qed.

Lemma mismatch_not_containers a b :
  String.eqb (getValueType a) (getValueType b) = false ->
  bothContainers a b = false.
Proof. destruct a, b; try discriminate; reflexivity. Qed.

Lemma compareJSON_root a b p t :
  compareJSON a b p = Some [t] ->
  path t = orSlash p /\ oldValue t = Some a /\ newValue t = Some b.
Proof.
  intros H. apply compareJSON_inv in H.
  destruct H as [_ ->|_ ->|xs ys cs _ _ _ ->|cs _ _ _ ->]; auto.
Qed.

Lemma compareJSON_children :
  forall a b p t,
    compareJSON a b p = Some [t] ->
    Forall (fun n => forall o w,
              oldValue n = Some o -> newValue n = Some w ->
              (children n = None <-> bothContainers o w = false))
           (nodesOf t).
Proof.
  apply (compareJSON_induction
           (fun a b p t =>
              Forall (fun n => forall o w,
                        oldValue n = Some o -> newValue n = Some w ->
                        (children n = None <-> bothContainers o w = false))
                     (nodesOf t))).
  intros a b p t [Hp ->|Hk ->|xs ys cs -> -> HF ->|cs Ha Hb HF ->].
  - constructor; [|constructor]. cbn. intros o w [= <-] [= <-].
    now rewrite (bothPrimitive_not_containers a b Hp).
  - constructor; [|constructor]. cbn. intros o w [= <-] [= <-].
    now rewrite (mismatch_not_containers a b Hk).
  - cbn [nodesOf container children]. constructor.
    + cbn. intros o w [= <-] [= <-]. split; discriminate.
    + apply Forall_flat_map_nodes. eapply Forall2_Forall_r; [exact HF|].
      intros i c _ [_ _ ->|_ _ ->|_ _ _ HQ]; try exact HQ;
        (constructor; [|constructor]); cbn; intros o w Ho Hw; congruence.
  - cbn [nodesOf container children]. constructor.
    + cbn. intros o w [= <-] [= <-]. unfold bothContainers.
      rewrite Ha, Hb, orb_true_r. split; discriminate.
    + apply Forall_flat_map_nodes. eapply Forall2_Forall_r; [exact HF|].
      intros key c _ [_ _ ->|_ _ ->|_ _ _ HQ]; try exact HQ;
        (constructor; [|constructor]); cbn; intros o w Ho Hw; congruence.
Qed.

(** X7: the node that [compareJSON] returns carries the path ([/] for the
    empty path) and the two values it was called with; and a node that has
    two values has a [children] list exactly when the two are both arrays
    or both non-array objects, an empty list when both are empty. *)
Theorem root_carries_the_inputs :
  forall (oldObj newObj : JsValue) (path0 : string),
    exists root,
      compareJSON oldObj newObj path0 = Some [root] /\
      path root = (if String.eqb path0 "" then "/" else path0) /\
      oldValue root = Some oldObj /\ newValue root = Some newObj /\
      forall n, In n (nodesOf root) ->
        forall o w, oldValue n = Some o -> newValue n = Some w ->
          (children n = None <-> bothContainers o w = false).
Proof.
  intros a b p. destruct (compareJSON_defined a b p) as [root Hroot].
  exists root. split; [exact Hroot|].
  destruct (compareJSON_root a b p root Hroot) as [H1 [H2 H3]].
  split; [exact H1|]. split; [exact H2|]. split; [exact H3|].
  pose proof (compareJSON_children a b p root Hroot) as H.
  rewrite Forall_forall in H. exact H.
Qed.

(** ** Paths and the order of the children *)

Lemma append_cancel_l (p s s' : string) :
  (p ++ s)%string = (p ++ s')%string -> s = s'.
Proof.
  induction p as [|c p IH]; cbn; [trivial|]. intros [= H]. now apply IH.
Qed.

Lemma append_length (s t : string) :
  String.length (s ++ t) = String.length s + String.length t.
Proof. induction s as [|c s IH]; cbn; [reflexivity|]. now rewrite IH. Qed.

Lemma append_cancel_r (t s s' : string) :
  (s ++ t)%string = (s' ++ t)%string -> s = s'.
Proof.
  revert s'. induction s as [|c s IH]; intros [|c' s'] H; cbn in H.
  - reflexivity.
  - apply (f_equal String.length) in H. cbn in H.
    rewrite append_length in H. lia.
  - apply (f_equal String.length) in H. cbn in H.
    rewrite append_length in H. lia.
  - injection H as -> H. f_equal. now apply IH.
Qed.

Lemma indexToString_inj i j : indexToString i = indexToString j -> i = j.
Proof.
  unfold indexToString. intros H.
  apply (f_equal NilEmpty.uint_of_string) in H.
  rewrite !NilEmpty.usu in H. injection H as H.
  apply (f_equal Nat.of_uint) in H.
  now rewrite !DecimalNat.Unsigned.of_to in H.
Qed.

Lemma itemPathOf_inj p i j : itemPathOf p i = itemPathOf p j -> i = j.
Proof.
  unfold itemPathOf. intros H. apply append_cancel_l in H.
  apply (append_cancel_l "[") in H. apply append_cancel_r in H.
  now apply indexToString_inj.
Qed.

Lemma itemPathOf_nonempty p i : orSlash (itemPathOf p i) = itemPathOf p i.
Proof.
  unfold orSlash. destruct (String.eqb (itemPathOf p i) "") eqn:E;
    [|reflexivity].
  apply String.eqb_eq in E. apply (f_equal String.length) in E.
  unfold itemPathOf in E. rewrite append_length in E. cbn in E. lia.
Qed.

Lemma NoDup_map_injective {A B : Type} (f : A -> B) l :
  (forall x y, f x = f y -> x = y) -> NoDup l -> NoDup (map f l).
Proof.
  intros Hinj. induction 1 as [|x l Hx _ IH]; cbn; constructor; trivial.
  intros Hin. apply in_map_iff in Hin. destruct Hin as [y [Hy Hin]].
  apply Hinj in Hy. now subst.
Qed.

Lemma array_children_paths xs ys p l cs :
  Forall2 (ArrayChild (fun _ _ _ _ => True) xs ys p) l cs ->
  map path cs = map (itemPathOf p) l.
Proof.
  induction 1 as [|i c l cs Hc _ IH]; [reflexivity|].
  cbn [map]. rewrite IH. f_equal.
  destruct Hc as [_ _ ->|_ _ ->|_ _ E _]; try reflexivity.
  apply compareJSON_root in E. destruct E as [-> _].
  apply itemPathOf_nonempty.
Qed.

(** X8: the children of the node of two arrays carry, in order, the paths
    [path[0]], [path[1]], ... up to the longer length; no two of them have
    the same path. *)
Theorem array_children_are_addressed_by_index :
  forall (xs ys : list JsValue) (path0 : string),
    exists root cs,
      compareJSON (JArr xs) (JArr ys) path0 = Some [root] /\
      children root = Some cs /\
      map path cs =
      map (fun i => (path0 ++ "[" ++ indexToString i ++ "]")%string)
          (seq 0 (Nat.max (List.length xs) (List.length ys))) /\
      NoDup (map path cs).
Proof.
  intros xs ys p.
  destruct (compareJSON_defined (JArr xs) (JArr ys) p) as [root Hroot].
  destruct (compareJSON_inv _ _ _ _ Hroot)
    as [Hp _|Hk _|xs' ys' cs [= <-] [= <-] HF ->|cs Ha _ _ _];
    try discriminate.
  exists (container p (JArr xs) (JArr ys) cs), cs.
  split; [exact Hroot|]. split; [reflexivity|].
  pose proof (array_children_paths xs ys p _ cs HF) as Hpaths.
  split; [exact Hpaths|]. rewrite Hpaths.
  apply NoDup_map_injective; [apply itemPathOf_inj|apply seq_NoDup].
Qed.

Lemma setAdd_fold_filter l : forall s,
  NoDup l ->
  fold_left setAdd l s = s ++ filter (fun key => negb (includes s key)) l.
Proof.
  induction l as [|k l IH]; intros s Hl; cbn [fold_left filter].
  - now rewrite app_nil_r.
  - inversion Hl as [|? ? Hk Hl']; subst. rewrite (IH _ Hl').
    unfold setAdd. destruct (includes s k) eqn:E; cbn [negb];
      [reflexivity|].
    rewrite <- app_assoc. cbn [app]. do 2 f_equal.
    apply filter_ext_in. intros key Hkey. f_equal.
    unfold includes. rewrite existsb_app. cbn [existsb].
    rewrite orb_false_r.
    destruct (String.eqb key k) eqn:Ek; [|now rewrite orb_false_r].
    apply String.eqb_eq in Ek. subst. contradiction.
Qed.

Lemma newSet_union ka kb :
  NoDup ka -> NoDup kb -> newSet (ka ++ kb) = ka ++ newKeys ka kb.
Proof.
  intros Ha Hb. unfold newSet. rewrite fold_left_app.
  rewrite (setAdd_fold_filter ka [] Ha). cbn [app].
  rewrite (filter_ext_in _ (fun _ => true));
    [|reflexivity].
  assert (E : filter (fun _ : string => true) ka = ka).
  { clear. induction ka as [|k ka IH]; cbn; [reflexivity|now rewrite IH]. }
  rewrite E. now apply setAdd_fold_filter.
Qed.

(** X9: the node of two objects has one child per key of the union of
    their keys, in this order: the keys of the old object in its order,
    then the keys that only the new object has, in its order; the child of
    a key is an added leaf, a removed leaf or the comparison of the two
    values, as [ObjectChild] says. *)
Theorem object_children_follow_key_order :
  forall (pa pb : list (string * JsValue)) (path0 : string),
    isValue (JObj pa) = true -> isValue (JObj pb) = true ->
    exists root cs,
      compareJSON (JObj pa) (JObj pb) path0 = Some [root] /\
      children root = Some cs /\
      Forall2 (ObjectChild (fun _ _ _ _ => True) (JObj pa) (JObj pb) path0)
              (map fst pa ++ newKeys (map fst pa) (map fst pb)) cs.
Proof.
  intros pa pb p Ha Hb.
  apply isValue_JObj in Ha, Hb. destruct Ha as [Hda _], Hb as [Hdb _].
  destruct (compareJSON_defined (JObj pa) (JObj pb) p) as [root Hroot].
  destruct (compareJSON_inv _ _ _ _ Hroot)
    as [Hp _|Hk _|xs' ys' cs [=] _ _ _|cs _ _ HF ->];
    try discriminate.
  exists (container p (JObj pa) (JObj pb) cs), cs.
  split; [exact Hroot|]. split; [reflexivity|].
  unfold allKeysOf in HF. cbn [truthy ownKeys] in HF.
  now rewrite (newSet_union _ _ Hda Hdb) in HF.
Qed.

Lemma object_children_follow_key_order_witness :
  isValue (JObj [("x", JNum 1); ("y", JNull)]) = true /\
  isValue (JObj [("z", JNull); ("y", JNum 2)]) = true /\
  exists root cs,
    compareJSON (JObj [("x", JNum 1); ("y", JNull)])
                (JObj [("z", JNull); ("y", JNum 2)]) "" = Some [root] /\
    children root = Some cs /\
    Forall2 (ObjectChild (fun _ _ _ _ => True)
               (JObj [("x", JNum 1); ("y", JNull)])
               (JObj [("z", JNull); ("y", JNum 2)]) "")
            (map fst [("x", JNum 1); ("y", JNull)] ++
             newKeys (map fst [("x", JNum 1); ("y", JNull)])
                     (map fst [("z", JNull); ("y", JNum 2)])) cs.
Proof.
  assert (H1 : isValue (JObj [("x", JNum 1); ("y", JNull)]) = true)
    by (vm_compute; reflexivity).
  assert (H2 : isValue (JObj [("z", JNull); ("y", JNum 2)]) = true)
    by (vm_compute; reflexivity).
  split; [exact H1|]. split; [exact H2|].
  exact (object_children_follow_key_order _ _ "" H1 H2).
Defined.

(** ** What [DiffViewer] displays *)

Lemma fromDocument_defined v : fromDocument v = true -> v <> JUndefined.
Proof. now destruct v. Qed.

Lemma fromDocument_value v : isValue v = true -> fromDocument v = true.
Proof. unfold fromDocument. now intros ->. Qed.

Lemma fromDocument_item xs i :
  fromDocument (JArr xs) = true -> i < List.length xs ->
  fromDocument (nth i xs JUndefined) = true.
Proof.
  unfold fromDocument at 1. rewrite orb_false_r. intros H Hi.
  apply fromDocument_value. now apply isValue_item.
Qed.

Lemma fromDocument_getProp v key :
  isPlainObject v = true -> fromDocument v = true -> hasIn key v = true ->
  fromDocument (getProp v key) = true.
Proof.
  destruct v; try discriminate; intros _ Hv Hin; cbn [getProp hasIn] in *.
  - unfold fromDocument in Hv. rewrite orb_false_r in Hv.
    apply isValue_JObj in Hv. destruct Hv as [_ Hv].
    destruct (ownProp props key) as [x|] eqn:E.
    + apply fromDocument_value. apply (Hv key). now apply ownProp_Some.
    + unfold protoProp. rewrite Hin.
      now destruct (String.eqb key "__proto__").
  - unfold protoProp. rewrite Hin.
    now destruct (String.eqb key "__proto__").
Qed.

Lemma compareJSON_no_undefined :
  forall a b p t,
    compareJSON a b p = Some [t] ->
    fromDocument a = true -> fromDocument b = true ->
    Forall (fun n => oldValue n <> Some JUndefined /\
                     newValue n <> Some JUndefined) (nodesOf t).
Proof.
  apply (compareJSON_induction
           (fun a b p t =>
              fromDocument a = true -> fromDocument b = true ->
              Forall (fun n => oldValue n <> Some JUndefined /\
                               newValue n <> Some JUndefined) (nodesOf t))).
  assert (Hdef : forall v, fromDocument v = true ->
                           Some v <> Some JUndefined).
  { intros v Hv [= ->]. discriminate Hv. }
  intros a b p t [Hp ->|Hk ->|xs ys cs -> -> HF ->|cs Ha Hb HF ->] Hfa Hfb.
  - constructor; [|constructor]. cbn. auto.
  - constructor; [|constructor]. cbn. auto.
  - cbn [nodesOf container children]. constructor; [cbn; auto|].
    apply Forall_flat_map_nodes. eapply Forall2_Forall_r; [exact HF|].
    intros i c _ [H1 H2 ->|H1 H2 ->|H1 H2 _ HQ].
    + constructor; [|constructor]. cbn. split; [discriminate|].
      now apply Hdef, fromDocument_item.
    + constructor; [|constructor]. cbn. split; [|discriminate].
      now apply Hdef, fromDocument_item.
    + apply HQ; now apply fromDocument_item.
  - cbn [nodesOf container children]. constructor; [cbn; auto|].
    apply Forall_flat_map_nodes. eapply Forall2_Forall_r; [exact HF|].
    intros key c _ [H1 H2 ->|H1 H2 ->|H1 H2 _ HQ].
    + constructor; [|constructor]. cbn. split; [discriminate|].
      apply Hdef, fromDocument_getProp; auto using hasIn_own.
    + constructor; [|constructor]. cbn. split; [|discriminate].
      apply Hdef, fromDocument_getProp; auto using hasIn_own.
    + apply HQ; now apply fromDocument_getProp.
Qed.

Lemma notUndefined_present field :
  field <> Some JUndefined -> notUndefined field = negb
    (match field with None => true | Some _ => false end).
Proof. destruct field as [[]|]; try reflexivity. congruence. Qed.

(** X10: in the diff of two values no field holds [undefined], so the
    guards of [DiffViewer] reduce to the classification: a leaf displays
    its "Old:" line exactly when it is not added and its "New:" line
    exactly when it is not removed, and a modified or unchanged leaf
    displays both. *)
Theorem leaves_display_their_values :
  forall (oldObj newObj : JsValue) (path0 : string),
    isValue oldObj = true -> isValue newObj = true ->
    exists root,
      compareJSON oldObj newObj path0 = Some [root] /\
      forall n, In n (nodesOf root) ->
        oldValue n <> Some JUndefined /\ newValue n <> Some JUndefined /\
        showsOld n = isLeaf n && negb (sameType (type n) Added) /\
        showsNew n = isLeaf n && negb (sameType (type n) Removed).
Proof.
  intros a b p Ha Hb. destruct (compareJSON_defined a b p) as [root Hroot].
  exists root. split; [exact Hroot|].
  pose proof (compareJSON_no_undefined a b p root Hroot
                (fromDocument_value a Ha) (fromDocument_value b Hb)) as Hdef.
  apply compareJSON_invariant in Hroot. destruct Hroot as [_ Hall].
  rewrite Forall_forall in Hdef, Hall. intros n Hn.
  destruct (Hdef n Hn) as [Ho Hw].
  destruct (nodeOK_fields n (Hall n Hn)) as [Fo Fw].
  split; [exact Ho|]. split; [exact Hw|].
  unfold showsOld, showsNew.
  rewrite (notUndefined_present _ Ho), (notUndefined_present _ Hw).
  split; f_equal.
  - destruct (oldValue n) as [o|]; destruct (type n) eqn:Ht; cbn;
      try reflexivity; exfalso; destruct Fo as [F1 F2];
      first [specialize (F1 eq_refl); discriminate
            |specialize (F2 eq_refl); discriminate].
  - destruct (newValue n) as [w|]; destruct (type n) eqn:Ht; cbn;
      try reflexivity; exfalso; destruct Fw as [F1 F2];
      first [specialize (F1 eq_refl); discriminate
            |specialize (F2 eq_refl); discriminate].
Qed.

Lemma leaves_display_their_values_witness :
  isValue docBA = true /\ isValue sampleDoc = true /\
  exists root,
    compareJSON docBA sampleDoc "" = Some [root] /\
    forall n, In n (nodesOf root) ->
      oldValue n <> Some JUndefined /\ newValue n <> Some JUndefined /\
      showsOld n = isLeaf n && negb (sameType (type n) Added) /\
      showsNew n = isLeaf n && negb (sameType (type n) Removed).
Proof.
  assert (H1 : isValue docBA = true) by (vm_compute; reflexivity).
  assert (H2 : isValue sampleDoc = true) by (vm_compute; reflexivity).
  split; [exact H1|]. split; [exact H2|].
  exact (leaves_display_their_values docBA sampleDoc "" H1 H2).
Defined.

(** ** The paths that [InlineDiffEditor] highlights *)

Lemma find_app {A : Type} (f : A -> bool) l1 l2 :
  find f (l1 ++ l2) =
  match find f l1 with Some x => Some x | None => find f l2 end.
Proof.
  induction l1 as [|x l1 IH]; cbn; [reflexivity|].
  now destruct (f x).
Qed.

Lemma findDiffInNode_children p t o w cs wanted :
  findDiffInNode (mkDiffNode p t o w (Some cs)) wanted =
  if String.eqb p wanted then Some (mkDiffNode p t o w (Some cs))
  else findDiffByPath cs wanted.
Proof. reflexivity. Qed.

Lemma findDiffByPath_cons n rest wanted :
  findDiffByPath (n :: rest) wanted =
  match findDiffInNode n wanted with
  | Some found => Some found
  | None => findDiffByPath rest wanted
  end.
Proof. reflexivity. Qed.

Lemma findDiffByPath_forest cs wanted :
  Forall (fun n => findDiffInNode n wanted =
                   find (fun m => String.eqb (path m) wanted) (nodesOf n))
         cs ->
  findDiffByPath cs wanted =
  find (fun m => String.eqb (path m) wanted) (forestNodes cs).
Proof.
  induction 1 as [|n cs Hn _ IH]; [reflexivity|].
  rewrite findDiffByPath_cons, Hn, IH. unfold forestNodes.
  cbn [flat_map]. now rewrite find_app.
Qed.

Lemma findDiffInNode_find n wanted :
  findDiffInNode n wanted =
  find (fun m => String.eqb (path m) wanted) (nodesOf n).
Proof.
  induction n as [p t o w|p t o w cs IH] using DiffNode_ind.
  - cbn. now destruct (String.eqb p wanted).
  - rewrite findDiffInNode_children. cbn [nodesOf children find path].
    destruct (String.eqb p wanted); [reflexivity|].
    now apply findDiffByPath_forest.
Qed.

Lemma findDiffByPath_find nodes wanted :
  findDiffByPath nodes wanted =
  find (fun m => String.eqb (path m) wanted) (forestNodes nodes).
Proof.
  apply findDiffByPath_forest, Forall_forall.
  intros n _. apply findDiffInNode_find.
Qed.

(** X11: [findDiffByPath] returns the first node, in the order parents
    before children and siblings left to right, whose path is the one
    looked for; it returns null exactly when no node of the forest has
    that path. *)
Theorem findDiffByPath_first_match :
  forall (nodes : list DiffNode) (wanted : string),
    findDiffByPath nodes wanted =
      find (fun n => String.eqb (path n) wanted) (forestNodes nodes) /\
    (forall n, findDiffByPath nodes wanted = Some n ->
               In n (forestNodes nodes) /\ path n = wanted) /\
    (findDiffByPath nodes wanted = None <->
     forall n, In n (forestNodes nodes) -> path n <> wanted).
Proof.
  intros nodes w. rewrite findDiffByPath_find.
  split; [reflexivity|]. split.
  - intros n H. apply find_some in H. destruct H as [Hin Hp].
    split; [exact Hin|now apply String.eqb_eq].
  - split.
    + intros H n Hn Hp. apply (find_none _ _ H) in Hn.
      apply String.eqb_neq in Hn. contradiction.
    + intros H.
      destruct (find (fun n => String.eqb (path n) w) (forestNodes nodes))
        as [n|] eqn:E; [|reflexivity].
      apply find_some in E. destruct E as [Hin Hp].
      apply String.eqb_eq in Hp. now apply H in Hin.
Qed.

Lemma collectPathsNode_children p t o w cs paths :
  collectPathsNode (mkDiffNode p t o w (Some cs)) paths =
  collectPaths cs
    (if isChanged (mkDiffNode p t o w (Some cs)) then setAdd paths p
     else paths).
Proof. reflexivity. Qed.

Lemma changedPathsOf_app l1 l2 :
  changedPathsOf (l1 ++ l2) = changedPathsOf l1 ++ changedPathsOf l2.
Proof. unfold changedPathsOf. now rewrite filter_app, map_app. Qed.

Lemma collectPaths_forest cs :
  Forall (fun n => forall s,
            collectPathsNode n s =
            fold_left setAdd (changedPathsOf (nodesOf n)) s) cs ->
  forall s,
    collectPaths cs s = fold_left setAdd (changedPathsOf (forestNodes cs)) s.
Proof.
  induction 1 as [|n cs Hn _ IH]; intros s; [reflexivity|].
  cbn [collectPaths]. rewrite IH, Hn. unfold forestNodes.
  cbn [flat_map]. now rewrite changedPathsOf_app, fold_left_app.
Qed.

Lemma collectPathsNode_nodes n :
  forall s,
    collectPathsNode n s = fold_left setAdd (changedPathsOf (nodesOf n)) s.
Proof.
  induction n as [p t o w|p t o w cs IH] using DiffNode_ind; intros s.
  - cbn. unfold changedPathsOf, isChanged. cbn. now destruct t.
  - rewrite collectPathsNode_children, (collectPaths_forest cs IH).
    cbn [nodesOf children]. fold (forestNodes cs).
    unfold changedPathsOf at 2. cbn [filter].
    destruct (isChanged (mkDiffNode p t o w (Some cs))); reflexivity.
Qed.

Lemma collectPaths_nodes nodes s :
  collectPaths nodes s =
  fold_left setAdd (changedPathsOf (forestNodes nodes)) s.
Proof.
  apply collectPaths_forest, Forall_forall.
  intros n _. apply collectPathsNode_nodes.
Qed.

Lemma isChanged_type n : isChanged n = true <-> type n <> Unchanged.
Proof. unfold isChanged. destruct (type n); split; congruence. Qed.

Lemma changedPathsOf_In l p :
  In p (changedPathsOf l) <->
  exists n, In n l /\ type n <> Unchanged /\ path n = p.
Proof.
  unfold changedPathsOf. rewrite in_map_iff. split.
  - intros [n [Hp Hn]]. apply filter_In in Hn. destruct Hn as [Hn Hc].
    exists n. now rewrite <- isChanged_type.
  - intros [n [Hn [Hc Hp]]]. exists n. split; [exact Hp|].
    apply filter_In. now rewrite isChanged_type.
Qed.

(** X12: [collectPaths] adds to the set exactly the paths of the nodes of
    the forest that are not unchanged, each once; every path it collects
    is one that [findDiffByPath] finds a node for. *)
Theorem collectPaths_collects_changed_paths :
  forall (nodes : list DiffNode),
    NoDup (collectPaths nodes []) /\
    (forall (paths : list string) (p : string),
        In p (collectPaths nodes paths) <->
        In p paths \/
        exists n, In n (forestNodes nodes) /\ type n <> Unchanged /\
                  path n = p) /\
    (forall p, In p (collectPaths nodes []) ->
               exists n, findDiffByPath nodes p = Some n /\ path n = p).
Proof.
  intros nodes. split; [|split].
  - rewrite collectPaths_nodes. apply setAdd_fold_NoDup. constructor.
  - intros paths p.
    now rewrite collectPaths_nodes, setAdd_fold_In, changedPathsOf_In.
  - intros p. rewrite collectPaths_nodes, setAdd_fold_In, changedPathsOf_In.
    intros [[]|[n [Hn [_ Hp]]]]. rewrite findDiffByPath_find.
    destruct (find (fun m => String.eqb (path m) p) (forestNodes nodes))
      as [m|] eqn:E.
    + exists m. split; [reflexivity|].
      apply find_some in E. now apply String.eqb_eq.
    + apply (find_none _ _ E) in Hn. apply String.eqb_neq in Hn.
      contradiction.
Qed.

Lemma changedPathsOf_unchanged l :
  Forall (fun n => type n = Unchanged) l -> changedPathsOf l = [].
Proof.
  induction 1 as [|n l Hn _ IH]; [reflexivity|].
  unfold changedPathsOf, isChanged in *. cbn [filter]. now rewrite Hn.
Qed.

Lemma fold_setAdd_nil l : fold_left setAdd l [] = [] -> l = [].
Proof.
  destruct l as [|k l]; [reflexivity|]. intros H.
  assert (Hk : In k (fold_left setAdd (k :: l) []))
    by (apply setAdd_fold_In; right; now left).
  rewrite H in Hk. destruct Hk.
Qed.

(** X13: for the diff of any two values, the set of paths to highlight is
    empty exactly when the root is unchanged, that is, when no node at
    all is added, removed or modified. *)
Theorem nothing_to_highlight_iff_unchanged :
  forall (oldObj newObj : JsValue) (path0 : string),
    exists root,
      compareJSON oldObj newObj path0 = Some [root] /\
      (collectPaths [root] [] = [] <-> type root = Unchanged) /\
      (collectPaths [root] [] = [] <->
       forall n, In n (nodesOf root) -> type n = Unchanged).
Proof.
  intros a b p. destruct (compareJSON_defined a b p) as [root Hroot].
  exists root. split; [exact Hroot|].
  apply compareJSON_invariant in Hroot. destruct Hroot as [_ Hall].
  assert (Hnodes : forestNodes [root] = nodesOf root)
    by (unfold forestNodes; cbn; apply app_nil_r).
  assert (Hself : collectPaths [root] [] = [] -> type root = Unchanged).
  { rewrite collectPaths_nodes, Hnodes. intros H.
    apply fold_setAdd_nil in H.
    destruct (type root) eqn:Ht; trivial; exfalso;
      assert (Hin : In (path root) (changedPathsOf (nodesOf root)))
        by (apply changedPathsOf_In; exists root;
            split; [apply nodesOf_self|split; [congruence|reflexivity]]);
      rewrite H in Hin; destruct Hin. }
  assert (Hsub : type root = Unchanged ->
                 forall n, In n (nodesOf root) -> type n = Unchanged).
  { intros Ht. apply Forall_forall. now apply unchanged_subtree. }
  assert (Hnone : (forall n, In n (nodesOf root) -> type n = Unchanged) ->
                  collectPaths [root] [] = []).
  { intros H. rewrite collectPaths_nodes, Hnodes.
    rewrite (changedPathsOf_unchanged (nodesOf root)); [reflexivity|].
    now apply Forall_forall. }
  split; split; auto.
Qed.

(** ** The handlers of the page *)

Lemma validateJSON_cases trim JSONparse text :
  (exists e, validateJSON trim JSONparse text =
             mkValidation false (Some e) None) \/
  (exists v, validateJSON trim JSONparse text =
             mkValidation true None (Some v) /\ JSONparse text = inl v).
Proof.
  unfold validateJSON.
  destruct (String.eqb text "" || String.eqb (trim text) "").
  - left. now eexists.
  - destruct (JSONparse text) as [v|e].
    + right. now exists v.
    + left. now exists e.
Qed.

Lemma compareJSON_on_stack stack a b p :
  depth a + depth b < stack ->
  compareJSON_fuel stack a b p = compareJSON a b p.
Proof.
  intros Hd. destruct (compareJSON_defined a b p) as [root Hroot].
  rewrite Hroot. unfold compareJSON in Hroot.
  apply (compareJSON_fuel_mono (S (depth a + depth b))); [lia|exact Hroot].
Qed.

(** X14: [handleCompare] keeps both texts and ends with [isComparing]
    false.  An invalid left text is reported first, as "Original JSON: "
    and its error, a valid left with an invalid right text as
    "Modified JSON: ", and both leave [diffs] as they were.  When both
    texts parse and the stack has room for the two depths, [diffs] becomes
    the one root node of the comparison, at path "/", holding the two
    parsed values, and the toast is "Comparison Complete". *)
Theorem handleCompare_outcome :
  forall (trim : string -> string) (JSONparse : string -> JsValue + string)
         (stack : nat) (st st' : PageState) (toast : Toast),
    handleCompare trim JSONparse stack st = (st', toast) ->
    let left := validateJSON trim JSONparse (leftJson st) in
    let right := validateJSON trim JSONparse (rightJson st) in
    (leftJson st' = leftJson st /\ rightJson st' = rightJson st /\
     isComparing st' = false) /\
    (isValid left = false ->
     diffs st' = diffs st /\
     exists e, error left = Some e /\
               toast = mkToast "Invalid JSON" ("Original JSON: " ++ e) true) /\
    (isValid left = true -> isValid right = false ->
     diffs st' = diffs st /\
     exists e, error right = Some e /\
               toast = mkToast "Invalid JSON" ("Modified JSON: " ++ e) true) /\
    (forall a b,
        parsed left = Some a -> parsed right = Some b ->
        depth a + depth b < stack ->
        exists root,
          compareJSON a b "" = Some [root] /\ diffs st' = [root] /\
          path root = "/" /\
          oldValue root = Some a /\ newValue root = Some b /\
          toast = mkToast "Comparison Complete"
                          "JSON objects compared successfully" false).
Proof.
  intros trim JSONparse stack st st' toast H left right.
  unfold handleCompare in H. fold left right in H.
  destruct (validateJSON_cases trim JSONparse (leftJson st))
    as [[e El]|[a [El _]]]; fold left in El; rewrite El in H |- *;
    cbn [isValid error parsed negb fieldValue] in H |- *.
  { injection H as <- <-. cbn. repeat split; try discriminate.
    exists e. now split. }
  destruct (validateJSON_cases trim JSONparse (rightJson st))
    as [[e Er]|[b [Er _]]]; fold right in Er; rewrite Er in H |- *;
    cbn [isValid error parsed negb fieldValue] in H |- *.
  { injection H as <- <-. cbn. repeat split; try discriminate.
    exists e. now split. }
  split; [|split; [discriminate|split; [discriminate|]]].
  - destruct (compareJSON_fuel stack a b ""); injection H as <- <-;
      now cbn.
  - intros a' b' [= <-] [= <-] Hd.
    rewrite (compareJSON_on_stack stack a b "" Hd) in H.
    destruct (compareJSON_defined a b "") as [root Hroot].
    rewrite Hroot in H. injection H as <- <-.
    exists root. destruct (compareJSON_root a b "" root Hroot) as [? [? ?]].
    now repeat split.
Qed.

Lemma handleCompare_outcome_witness :
  exists root,
    compareJSON (JArr [JNum 1]) (JObj []) "" = Some [root] /\
    path root = "/" /\
    oldValue root = Some (JArr [JNum 1]) /\ newValue root = Some (JObj []).
Proof.
  pose (st := mkPage "[1]" "{}" [] false).
  pose (st' := mkPage "[1]" "{}"
                 [leaf "/" Modified (JArr [JNum 1]) (JObj [])] false).
  pose (toast := mkToast "Comparison Complete"
                         "JSON objects compared successfully" false).
  assert (H : handleCompare (fun s => s) parseExample 8 st = (st', toast))
    by (vm_compute; reflexivity).
  destruct (handleCompare_outcome (fun s => s) parseExample 8 st st' toast H)
    as [_ [_ [_ Hok]]].
  destruct (Hok (JArr [JNum 1]) (JObj []) eq_refl eq_refl)
    as [root [H1 [_ [H2 [H3 [H4 _]]]]]]; [vm_compute; lia|].
  exists root. now repeat split.
Defined.

Lemma falsy_document v :
  isValue v = true -> nanFree v = true ->
  (truthy v = false <->
   v = JNull \/ v = JBool false \/ v = JStr "" \/
   exists x, v = JNum x /\ PrimFloat.eqb x 0%float = true).
Proof.
  intros Hv Hn. destruct v; try discriminate; cbn in *.
  - split; [auto|reflexivity].
  - destruct b; split; try discriminate; auto.
    intros [H|[H|[H|[x [H _]]]]]; discriminate.
  - rewrite Hn, andb_true_r. destruct (PrimFloat.eqb x 0) eqn:E; cbn.
    + split; [|reflexivity]. intros _. right. right. right.
      now exists x.
    + split; [discriminate|].
      intros [H|[H|[H|[y [[= <-] H]]]]]; try discriminate. congruence.
  - destruct (String.eqb s "") eqn:E; cbn.
    + apply String.eqb_eq in E. subst. split; auto.
    + apply String.eqb_neq in E. split; [discriminate|].
      intros [H|[H|[[= H]|[y [H _]]]]]; try discriminate. contradiction.
  - split; [discriminate|].
    intros [H|[H|[H|[y [H _]]]]]; discriminate.
  - split; [discriminate|].
    intros [H|[H|[H|[y [H _]]]]]; discriminate.
Qed.

(** X15: [handleFormat] refuses a text that is valid JSON exactly when the
    document it denotes is falsy: [null], [false], a zero or the empty
    string get "Format Failed - Cannot format invalid JSON" and the page
    stays as it is.  Every other valid text is replaced by its formatted
    form, the other text and the diff staying as they are. *)
Theorem handleFormat_refuses_falsy_documents :
  forall (trim : string -> string) (JSONparse : string -> JsValue + string)
         (JSONstringify : JsValue -> nat -> option string)
         (toString : JsValue -> string)
         (side : Side) (st : PageState) (v : JsValue),
    validateJSON trim JSONparse (textOf side st) =
      mkValidation true None (Some v) ->
    isValue v = true -> nanFree v = true ->
    let result :=
      handleFormat trim JSONparse JSONstringify toString side st in
    let formatted := formatJSON JSONstringify toString v 2 in
    (result = (st, mkToast "Format Failed" "Cannot format invalid JSON" true)
     <->
     v = JNull \/ v = JBool false \/ v = JStr "" \/
     exists x, v = JNum x /\ PrimFloat.eqb x 0%float = true) /\
    (result <> (st, mkToast "Format Failed" "Cannot format invalid JSON"
                            true) ->
     snd result = mkToast "Formatted" "JSON has been formatted" false /\
     textOf side (fst result) = formatted /\
     diffs (fst result) = diffs st /\
     isComparing (fst result) = isComparing st /\
     match side with
     | LeftSide => rightJson (fst result) = rightJson st
     | RightSide => leftJson (fst result) = leftJson st
     end).
Proof.
  intros trim JSONparse JSONstringify toString side st v Hval Hv Hn
         result formatted.
  subst result formatted. unfold handleFormat. rewrite Hval.
  cbn [isValid parsed fieldValue andb].
  rewrite <- (falsy_document v Hv Hn).
  destruct (truthy v) eqn:Ht.
  - split.
    + split; [|discriminate]. intros H. apply (f_equal snd) in H.
      discriminate H.
    + intros _. destruct side; cbn; auto.
  - split.
    + split; reflexivity.
    + intros H. now contradiction H.
Qed.

Lemma handleFormat_refuses_falsy_documents_witness :
  handleFormat (fun s => s) parseExample (fun _ _ => Some "0")
               (fun _ => "0") RightSide (mkPage "{}" "0" [] false) =
  (mkPage "{}" "0" [] false,
   mkToast "Format Failed" "Cannot format invalid JSON" true).
Proof.
  refine (proj2 (proj1 (handleFormat_refuses_falsy_documents
                          (fun s => s) parseExample (fun _ _ => Some "0")
                          (fun _ => "0") RightSide
                          (mkPage "{}" "0" [] false) (JNum 0)
                          _ _ _)) _).
  - vm_compute; reflexivity.
  - reflexivity.
  - vm_compute; reflexivity.
  - right. right. right. exists 0%float. split; [reflexivity|].
    vm_compute; reflexivity.
Defined.

(** X16: after a comparison that completed, [handleExportDiff] downloads
    the serialization of its one root node and never answers "No Diff to
    Export"; after a comparison that did not complete it answers what it
    answered before, the diff of the page being the previous one. *)
Theorem export_follows_compare :
  forall (trim : string -> string) (JSONparse : string -> JsValue + string)
         (stack : nat) (stringifyDiffs : list DiffNode -> string)
         (st st' : PageState) (toast : Toast),
    handleCompare trim JSONparse stack st = (st', toast) ->
    (title toast = "Comparison Complete" ->
     exists root,
       diffs st' = [root] /\
       handleExportDiff stringifyDiffs st' =
         (Some (stringifyDiffs [root]),
          mkToast "Exported" "Diff report downloaded successfully" false)) /\
    (title toast <> "Comparison Complete" ->
     destructive toast = true /\
     handleExportDiff stringifyDiffs st' =
       handleExportDiff stringifyDiffs st).
Proof.
  intros trim JSONparse stack stringifyDiffs st st' toast H.
  unfold handleCompare in H.
  destruct (isValid (validateJSON trim JSONparse (leftJson st)));
    cbn [negb] in H;
    [|injection H as <- <-; split;
      [discriminate|intros _; split; reflexivity]].
  destruct (isValid (validateJSON trim JSONparse (rightJson st)));
    cbn [negb] in H;
    [|injection H as <- <-; split;
      [discriminate|intros _; split; reflexivity]].
  destruct (compareJSON_fuel stack _ _ "") as [result|] eqn:E.
  - apply compareJSON_fuel_singleton in E as Hone.
    destruct Hone as [root ->]. injection H as <- <-.
    split; [|intros Hno; now contradiction Hno].
    intros _. exists root. split; reflexivity.
  - injection H as <- <-. split; [discriminate|].
    intros _. split; reflexivity.
Qed.

Lemma export_follows_compare_witness :
  exists root,
    handleExportDiff (fun _ => "report")
      (mkPage "[1]" "{}"
         [leaf "/" Modified (JArr [JNum 1]) (JObj [])] false) =
    (Some ((fun _ : list DiffNode => "report") [root]),
     mkToast "Exported" "Diff report downloaded successfully" false).
Proof.
  assert (H : handleCompare (fun s => s) parseExample 8
                (mkPage "[1]" "{}" [] false) =
              (mkPage "[1]" "{}"
                 [leaf "/" Modified (JArr [JNum 1]) (JObj [])] false,
               mkToast "Comparison Complete"
                       "JSON objects compared successfully" false))
    by (vm_compute; reflexivity).
  destruct (proj1 (export_follows_compare (fun s => s) parseExample 8
                     (fun _ => "report") _ _ _ H) eq_refl)
    as [root [_ Hexp]].
  exists root. exact Hexp.
Defined.

(** ** The texts of [formatValue] *)

Lemma formatValue_sameSummary numberToString functionToString a b :
  fromDocument a = true -> fromDocument b = true ->
  printsItself a = false -> printsItself b = false ->
  (formatValue numberToString functionToString a =
   formatValue numberToString functionToString b <-> sameSummary a b).
Proof.
  intros Ha Hb Pa Pb.
  destruct a as [| |x|x|s|xs|pa|f|]; try discriminate;
    destruct b as [| |y|y|s'|ys|pb|f'|]; try discriminate;
    unfold quote; cbn -[indexToString];
    try (split; [discriminate|contradiction]);
    try (match goal with v : bool |- _ => destruct v end;
         cbn; (split; [discriminate|contradiction]));
    try (split; [intros H; injection H as H; apply append_cancel_r in H;
                 first [exact H|apply indexToString_inj in H; exact H]
                |intros E; congruence]).
  - tauto.
  - destruct x, y; split; congruence.
  - split; [|intros E; congruence]. intros H. injection H as H.
    apply (append_cancel_r " keys}" _ (indexToString 0)) in H.
    now apply indexToString_inj in H.
  - split; [|intros E; congruence]. intros H. injection H as H.
    apply (append_cancel_r " keys}" (indexToString 0)) in H.
    now apply indexToString_inj in H.
  - split; reflexivity.
Qed.

Lemma sameSummary_kind a b :
  sameSummary a b -> getValueType a = getValueType b.
Proof.
  destruct a, b; cbn; try contradiction; reflexivity.
Qed.






(** X18: [formatValue] prints a string in full and of an array or an
    object only its size: two strings have the same text only if they are
    equal, two arrays exactly when they have the same length, two objects
    exactly when they have the same number of keys; and two values of a
    document that are not numbers have the same text only if
    [getValueType] gives them the same kind. *)
Theorem formatValue_shows_size_only :
  forall (numberToString : float -> string)
         (functionToString : string -> string),
    let text := formatValue numberToString functionToString in
    (forall s s', text (JStr s) = text (JStr s') <-> s = s') /\
    (forall xs ys,
        text (JArr xs) = text (JArr ys) <-> List.length xs = List.length ys) /\
    (forall pa pb,
        text (JObj pa) = text (JObj pb) <-> List.length pa = List.length pb) /\
    (forall a b,
        isValue a = true -> isValue b = true ->
        printsItself a = false -> printsItself b = false ->
        text a = text b -> getValueType a = getValueType b).
Proof.
  intros f g text. subst text. split; [|split; [|split]].
  - intros s s'. now apply (formatValue_sameSummary f g (JStr s) (JStr s')).
  - intros xs ys. split.
    + intros H. cbn in H. injection H as H. apply append_cancel_r in H.
      now apply indexToString_inj.
    + cbn. now intros ->.
  - intros pa pb. split.
    + intros H. cbn in H. injection H as H. apply append_cancel_r in H.
      apply indexToString_inj in H. now rewrite !length_map in H.
    + cbn. rewrite !length_map. now intros ->.
  - intros a b Ha Hb Pa Pb H. apply sameSummary_kind.
    now apply (formatValue_sameSummary f g a b);
      auto using fromDocument_value.
Qed.
